(** * AudioFileConcatenator01: the sequence-to-media-plan compiler

    A shallow embedding of [parseAudioSequenceCSV] (csvParser.ts), of
    [findAndSetFfmpegPath], [generateSilence], [getAudioDuration] and
    [combineAudioFiles] (audioProcessor.ts), of [validateAudioFiles] and
    [validateOutputDirectory] (fileValidator.ts) and of the entry point
    (main.ts), with the node runtime and the ffmpeg tool as an explicit
    host interface, and the properties of the repository's specification
    stated over it. *)

From Stdlib Require Import Ascii String ZArith QArith Qabs List Lia.
From stdpp Require Import base option list strings gmap pretty.

Local Open Scope Z_scope.
Local Open Scope stdpp_scope.

(** ** JavaScript values

    Strings are sequences of code units below 256; numbers are IEEE doubles
    seen through their class (NaN, an infinity, or a finite value). *)

Module JS.

(** A double.  [Fin q] stands for the double nearest to the rational [q]:
    rounding inside the finite range is not tracked (nothing in the program
    depends on it), rounding to zero and to an infinity at the ends of the
    range is (see [to_double]).  The sign of a zero is dropped. *)
Inductive number : Type :=
| NaN
| Infinity (negative : bool)
| Fin (q : Q).

(** [isNaN(n)] *)
Definition isNaN (n : number) : bool :=
  match n with NaN => true | _ => false end.

(** [n > 0] *)
Definition gt_zero (n : number) : bool :=
  match n with
  | NaN => false
  | Infinity negative => negb negative
  | Fin q => negb (Qle_bool q 0)
  end.

(** ToBoolean of a number: [0] and [NaN] are falsy. *)
Definition truthy_number (n : number) : bool :=
  match n with
  | NaN => false
  | Infinity _ => true
  | Fin q => negb (Qeq_bool q 0)
  end.

(** ToBoolean of a string: only the empty string is falsy. *)
Definition truthy (s : string) : bool :=
  match s with EmptyString => false | String _ _ => true end.

(** ToBoolean of an optional string property ([undefined] is falsy). *)
Definition truthy_opt (o : option string) : bool :=
  match o with Some s => truthy s | None => false end.

(** The magnitudes at which a decimal value leaves the finite doubles:
    at most 2^-1075 rounds to zero, at least 2^1024 - 2^970 to an
    infinity (round to nearest, ties to even). *)
Definition underflow_bound : Q := 1 # (2 ^ 1075)%positive.
Definition overflow_bound : Q := inject_Z (2 ^ 1024 - 2 ^ 970).

Definition to_double (q : Q) : number :=
  if Qle_bool (Qabs q) underflow_bound then Fin 0
  else if Qle_bool overflow_bound (Qabs q) then Infinity (Qle_bool q 0)
  else Fin (Qred q).

(** WhiteSpace and LineTerminator code units: TAB, LF, VT, FF, CR, SP and
    NBSP. *)
Definition is_whitespace (c : ascii) : bool :=
  match nat_of_ascii c with
  | 9 | 10 | 11 | 12 | 13 | 32 | 160 => true
  | _ => false
  end%nat.

Definition is_digit (c : ascii) : bool :=
  ((48 <=? nat_of_ascii c) && (nat_of_ascii c <=? 57))%nat.

Definition digit_value (c : ascii) : Z := Z.of_nat (nat_of_ascii c) - 48.

(** [String.prototype.trimStart] *)
Fixpoint trimStart (s : string) : string :=
  match s with
  | String c r => if is_whitespace c then trimStart r else s
  | EmptyString => EmptyString
  end.

(** The string without its trailing white space: a character stays when it
    is not white space or something after it stays. *)
Fixpoint trimEnd (s : string) : string :=
  match s with
  | EmptyString => EmptyString
  | String c r =>
      match trimEnd r with
      | EmptyString => if is_whitespace c then EmptyString else String c EmptyString
      | r' => String c r'
      end
  end.

(** [String.prototype.trim] *)
Definition trim (s : string) : string := trimEnd (trimStart s).

(** The longest run of decimal digits at the head of a string, and the rest. *)
Fixpoint span_digits (s : string) : string * string :=
  match s with
  | String c r =>
      if is_digit c then let (ds, rest) := span_digits r in (String c ds, rest)
      else (EmptyString, s)
  | EmptyString => (EmptyString, EmptyString)
  end.

(** The value of a run of decimal digits, most significant first. *)
Fixpoint digits_value (acc : Z) (ds : string) : Z :=
  match ds with
  | String c r => digits_value (10 * acc + digit_value c) r
  | EmptyString => acc
  end.

(** An optional sign at the head of a string: whether it is a minus, and
    the rest. *)
Definition take_sign (s : string) : bool * string :=
  match s with
  | String c r =>
      if Ascii.eqb c "-" then (true, r)
      else if Ascii.eqb c "+" then (false, r)
      else (false, s)
  | EmptyString => (false, s)
  end.

(** ExponentPart: [e] or [E], an optional sign and at least one digit; an
    incomplete exponent is not part of the literal and counts as zero. *)
Definition parse_exponent (s : string) : Z :=
  match s with
  | String c r =>
      if Ascii.eqb c "e" || Ascii.eqb c "E" then
        let (negative, r') := take_sign r in
        match span_digits r' with
        | (EmptyString, _) => 0
        | (ds, _) => (if negative then -1 else 1) * digits_value 0 ds
        end
      else 0
  | EmptyString => 0
  end.

(** The digits after a decimal point, if the string starts with one. *)
Definition parse_fraction (s : string) : string * string :=
  match s with
  | String c r => if Ascii.eqb c "." then span_digits r else (EmptyString, s)
  | EmptyString => (EmptyString, s)
  end.

(** mantissa * 10^exponent as a rational *)
Definition decimal (mantissa exponent : Z) : Q :=
  if 0 <=? exponent then inject_Z (mantissa * 10 ^ exponent)
  else mantissa # Z.to_pos (10 ^ (- exponent)).

(** StrUnsignedDecimalLiteral at the head of a string: [Infinity], or digits
    with an optional fraction and exponent, or a fraction that starts with
    the point.  [None] when no prefix of the string is such a literal. *)
Definition parse_unsigned (s : string) : option (option Q) :=
  if String.prefix "Infinity" s then Some None
  else
    let (ip, r1) := span_digits s in
    let (fp, r2) := parse_fraction r1 in
    match ip +:+ fp with
    | EmptyString => None
    | ds => Some (Some (decimal (digits_value 0 ds)
                                (parse_exponent r2 - Z.of_nat (String.length fp))))
    end.

(** The global [parseFloat]: leading white space is skipped, the longest
    prefix that is a StrDecimalLiteral is converted, anything after it is
    ignored; [NaN] when there is no such prefix. *)
Definition parseFloat (s : string) : number :=
  let (negative, body) := take_sign (trimStart s) in
  match parse_unsigned body with
  | None => NaN
  | Some None => Infinity negative
  | Some (Some q) => to_double (if negative then Qopp q else q)
  end.

End JS.

(** ** Data model (types/index.ts) *)

Record AudioSequenceStep : Type := {
  id : string;
  audio_file_name_and_path : option string;
  pause_duration : option JS.number;
}.

Record ProcessingResult : Type := {
  outputPath : string;
  audioLengthSeconds : JS.number;
}.

(** One record of the CSV file as csv-parser hands it to the [data]
    handler: a column that the header lacks reads as [undefined]. *)
Record Row : Type := {
  row_id : string;
  row_audio_file_name_and_path : option string;
  row_pause_duration : option string;
}.

(** A thrown [Error], by its message. *)
Inductive Error : Type := mkError (message : string).

Inductive result (A : Type) : Type :=
| Ok (a : A)
| Throw (e : Error).
Arguments Ok {A} a.
Arguments Throw {A} e.

(** ** Effects: the file system, the logger and the external tool *)

(** The fluent-ffmpeg command of the concatenation, by its builder calls. *)
Record ConcatCommand : Type := {
  cc_input : string;
  cc_inputOptions : list string;
  cc_audioCodec : string;
  cc_audioBitrate : string;
  cc_audioFrequency : Z;
  cc_audioChannels : Z;
  cc_output : string;
}.

Inductive Level : Type := info | warn | error.

(** The logger's messages, one constructor per template of the source. *)
Inductive Message : Type :=
| ParsingCsv (csvPath : string)
| CsvNotFound (csvPath : string)
| InvalidPauseDuration (row_id raw : string)
| ErrorParsingCsv (msg : string)
| ParsedSteps (n : nat)
| StartingAudioProcessing (n : nat)
| CreatedTemporaryDirectory (tempDir : string)
| AddingAudioFile (step_id file : string)
| GeneratingSilence (seconds : JS.number) (outputPath : string)
| SilenceGenerated (outputPath : string)
| ErrorGeneratingSilence (msg : string)
| CreatedConcatList (entries : nat)
| ConcatenatingTo (outputPath : string)
| ConcatenationCompleted
| ErrorConcatenating (msg : string)
| ErrorProbing (filePath msg : string)
| FinalAudioDuration (seconds : JS.number)
| CleaningUp
| DeletedTemporaryDirectory (tempDir : string).

(** What a run does to the world, in order.  [Which] is the
    [execSync("which ffmpeg")] of the silence generator, [Silence cmd] its
    [execSync(cmd)], with the command line handed over. *)
Inductive Event : Type :=
| Log (level : Level) (m : Message)
| Mkdir (path : string)
| WriteFile (path content : string)
| Rm (path : string)
| Which
| Silence (cmd : string)
| Concat (cmd : ConcatCommand)
| Probe (path : string).

Inductive Node : Type :=
| Dir
| File (content : string).

(** The file system: the paths that name something.  A path exists when it
    and every directory above it do ([existsSync]).  Paths are taken as
    written: the disk holds every file and directory under one spelling
    (no trailing separator, no [.] or [..] segment), the one the program
    uses for it, and the empty prefix stands for the root directory. *)
Abbreviation FS := (gmap string Node).

(** The directories above a path: every [d] with [p = d/rest].  For an
    absolute path the first of them is the empty prefix, which stands for
    the root directory. *)
Fixpoint ancestors_from (seen s : string) : list string :=
  match s with
  | EmptyString => []
  | String c r =>
      (if Ascii.eqb c "/" then [seen] else [])
        ++ ancestors_from (seen +:+ String c EmptyString) r
  end.

Definition ancestors (p : string) : list string := ancestors_from "" p.

(** [p] lies below the directory [d]. *)
Definition is_under (d p : string) : Prop := ∃ rest, p = d +:+ "/" +:+ rest.

(** [p] is [d] or lies below it: what a recursive removal of [d] takes. *)
Definition in_tree (d p : string) : bool :=
  String.eqb p d || String.prefix (d +:+ "/") p.

Definition present (fs : FS) (p : string) : bool :=
  match fs !! p with Some _ => true | None => false end.

(** [fs.existsSync] *)
Definition fs_exists (fs : FS) (p : string) : bool :=
  present fs p && forallb (present fs) (ancestors p).

Definition ensure_dir (d : string) (fs : FS) : FS :=
  match fs !! d with Some _ => fs | None => <[d := Dir]> fs end.

(** [fs.mkdirSync(p, { recursive: true })]: the directory and the missing
    directories above it.  Faults of the host (permissions, a regular file
    in the way) are outside the model. *)
Definition fs_mkdir (p : string) (fs : FS) : FS :=
  foldr ensure_dir fs (p :: ancestors p).

(** [fs.rmSync(p, { recursive: true, force: true })] *)
Definition fs_rm (p : string) (fs : FS) : FS :=
  filter (λ kv : string * Node, in_tree p kv.1 = false) fs.

Definition is_dir (fs : FS) (p : string) : bool :=
  match fs !! p with Some Dir => true | _ => false end.

(** [fs.writeFileSync(p, content)]: refused when a directory above [p] is
    missing or [p] names a directory. *)
Definition fs_write (p content : string) (fs : FS) : result FS :=
  if negb (forallb (is_dir fs) (ancestors p)) then
    Throw (mkError ("ENOENT: no such file or directory, open '" +:+ p +:+ "'"))
  else if is_dir fs p then
    Throw (mkError ("EISDIR: illegal operation on a directory, open '" +:+ p +:+ "'"))
  else Ok (<[p := File content]> fs).

(** [metadata.format.duration] as fluent-ffmpeg hands it over: a number
    when ffprobe printed one, otherwise the text it printed ([N/A]). *)
Inductive FormatField : Type :=
| AsNumber (n : JS.number)
| AsString (s : string).

(** The node runtime and the installed tools, as far as the program calls
    them.  Each tool may change the file system as it likes. *)
Class Host : Type := {
  (** [path.join] *)
  path_join : string → string → string;
  (** Number::toString, as a template literal renders a number *)
  number_toString : JS.number → string;
  (** [child_process.execSync]: the standard output, or the error thrown *)
  execSync : string → FS → result string * FS;
  (** running a fluent-ffmpeg command: the [end] event ([None]) or the
      [error] event with its message *)
  ffmpeg_run : ConcatCommand → FS → option string * FS;
  (** [ffmpeg.ffprobe]: an error, or [metadata.format.duration] *)
  ffprobe : string → FS → result (option FormatField);
  (** the records csv-parser emits for a file and the stream error that
      ends them, if any *)
  csv_records : string → FS → list Row * option string;
}.

(** A computation: from a file system to a result (or a thrown error), the
    file system after it, and the events it caused. *)
Definition M (A : Type) : Type := FS → result A * FS * list Event.

Definition ret {A : Type} (a : A) : M A := λ fs, (Ok a, fs, []).

Definition bind {A B : Type} (m : M A) (k : A → M B) : M B := λ fs,
  match m fs with
  | (Ok a, fs1, ev1) => let '(r, fs2, ev2) := k a fs1 in (r, fs2, ev1 ++ ev2)
  | (Throw e, fs1, ev1) => (Throw e, fs1, ev1)
  end.

Declare Scope M_scope.
Delimit Scope M_scope with M.
Notation "x ← y ; z" := (bind y (λ x, z))
  (at level 20, y at level 100, z at level 200, only parsing) : M_scope.
Notation "x ;; z" := (bind x (λ _, z))
  (at level 100, z at level 200, only parsing, right associativity) : M_scope.
Local Open Scope M_scope.

Definition throw {A : Type} (e : Error) : M A := λ fs, (Throw e, fs, []).

(** [try { body } catch (err) { handler err }] *)
Definition try_catch {A : Type} (body : M A) (handler : Error → M A) : M A :=
  λ fs,
  match body fs with
  | (Ok a, fs1, ev1) => (Ok a, fs1, ev1)
  | (Throw e, fs1, ev1) => let '(r, fs2, ev2) := handler e fs1 in (r, fs2, ev1 ++ ev2)
  end.

(** [try { body } finally { final }]: [final] runs on every exit of [body];
    an error thrown by [final] replaces the outcome of [body]. *)
Definition try_finally {A : Type} (body : M A) (final : M unit) : M A :=
  λ fs,
  let '(r, fs1, ev1) := body fs in
  match final fs1 with
  | (Ok _, fs2, ev2) => (r, fs2, ev1 ++ ev2)
  | (Throw e, fs2, ev2) => (Throw e, fs2, ev1 ++ ev2)
  end.

Definition emit (e : Event) : M unit := λ fs, (Ok (), fs, [e]).

Definition log (level : Level) (m : Message) : M unit := emit (Log level m).

Definition existsSync (p : string) : M bool := λ fs, (Ok (fs_exists fs p), fs, []).

Definition mkdirSync (p : string) : M unit := λ fs, (Ok (), fs_mkdir p fs, [Mkdir p]).

Definition rmSync (p : string) : M unit := λ fs, (Ok (), fs_rm p fs, [Rm p]).

Definition writeFileSync (p content : string) : M unit := λ fs,
  match fs_write p content fs with
  | Ok fs' => (Ok (), fs', [WriteFile p content])
  | Throw e => (Throw e, fs, [WriteFile p content])
  end.

Definition outcome {A : Type} (x : result A * FS * list Event) : result A := x.1.1.
Definition disk {A : Type} (x : result A * FS * list Event) : FS := x.1.2.
Definition events {A : Type} (x : result A * FS * list Event) : list Event := x.2.

(** ** csvParser.ts *)

Definition error_message (e : Error) : string :=
  match e with mkError m => m end.

(** The [data] handler of [parseAudioSequenceCSV]: one row becomes one step,
    pushed on [results]. *)
Definition on_data (row : Row) (results : list AudioSequenceStep)
  : M (list AudioSequenceStep) :=
  let audio :=
    match row_audio_file_name_and_path row with
    | Some a => if JS.truthy a && JS.truthy (JS.trim a) then Some (JS.trim a) else None
    | None => None
    end in
  match row_pause_duration row with
  | Some raw =>
      if JS.truthy raw && JS.truthy (JS.trim raw) then
        let parsed := JS.parseFloat raw in
        if JS.isNaN parsed then
          log warn (InvalidPauseDuration (row_id row) raw);;
          ret (results ++ [{| id := row_id row;
                               audio_file_name_and_path := audio;
                               pause_duration := None |}])
        else
          ret (results ++ [{| id := row_id row;
                               audio_file_name_and_path := audio;
                               pause_duration := Some parsed |}])
      else
        ret (results ++ [{| id := row_id row;
                             audio_file_name_and_path := audio;
                             pause_duration := None |}])
  | None =>
      ret (results ++ [{| id := row_id row;
                           audio_file_name_and_path := audio;
                           pause_duration := None |}])
  end.

(** The [data] events of the stream, in order. *)
Fixpoint on_rows (rows : list Row) (results : list AudioSequenceStep)
  : M (list AudioSequenceStep) :=
  match rows with
  | [] => ret results
  | row :: rest => results' ← on_data row results; on_rows rest results'
  end.

(** A field of a row is populated: it is there and not blank, the test the
    handler makes before it reads the field. *)
Definition populated (field : option string) : bool :=
  match field with
  | Some s => JS.truthy s && JS.truthy (JS.trim s)
  | None => false
  end.

(** The step the handler pushes for a row, and what it logs for it. *)
Definition step_of_row (row : Row) : AudioSequenceStep :=
  {| id := row_id row;
     audio_file_name_and_path :=
       if populated (row_audio_file_name_and_path row)
       then JS.trim <$> row_audio_file_name_and_path row else None;
     pause_duration :=
       match row_pause_duration row with
       | Some raw =>
           if populated (Some raw) && negb (JS.isNaN (JS.parseFloat raw))
           then Some (JS.parseFloat raw) else None
       | None => None
       end |}.

Definition row_warnings (row : Row) : list Event :=
  match row_pause_duration row with
  | Some raw =>
      if populated (Some raw) && JS.isNaN (JS.parseFloat raw)
      then [Log warn (InvalidPauseDuration (row_id row) raw)] else []
  | None => []
  end.

Section WithHost.
Context `{Host}.

(** The promise of [parseAudioSequenceCSV], as it settles: resolved with
    the steps or rejected with an error.  The [error] listener is on the
    csv() stream; an error of the file stream itself settles nothing and
    ends the process, which [run_main] below accounts for. *)
Definition parseAudioSequenceCSV (csvPath : string) : M (list AudioSequenceStep) :=
  log info (ParsingCsv csvPath);;
  found ← existsSync csvPath;
  if negb found then
    log error (CsvNotFound csvPath);;
    throw (mkError ("CSV file not found: " +:+ csvPath))
  else
    λ fs,
    let '(rows, stream_error) := csv_records csvPath fs in
    (results ← on_rows rows [];
     match stream_error with
     | Some msg => log error (ErrorParsingCsv msg);; throw (mkError msg)
     | None => log info (ParsedSteps (length results));; ret results
     end) fs.

(** ** audioProcessor.ts *)

Definition double_quote : string := String (ascii_of_nat 34) EmptyString.
Definition newline : string := String (ascii_of_nat 10) EmptyString.

Definition which_ffmpeg : M string := λ fs,
  let '(r, fs') := execSync "which ffmpeg" fs in (r, fs', [Which]).

(** [execSync(cmd, { stdio: "pipe" })]: the command line handed over is
    what the event records. *)
Definition exec_silence (cmd : string) : M string := λ fs,
  let '(r, fs') := execSync cmd fs in (r, fs', [Silence cmd]).

Definition generateSilence (durationSeconds : JS.number) (outputPath : string)
  : M unit :=
  log info (GeneratingSilence durationSeconds outputPath);;
  try_catch
    (ffmpegPath ← try_catch (out ← which_ffmpeg; ret (JS.trim out))
                            (λ _, ret "ffmpeg");
     let cmd :=
       ffmpegPath +:+ " -f lavfi -i anullsrc=r=44100:cl=stereo -t "
         +:+ number_toString durationSeconds
         +:+ " -c:a libmp3lame -b:a 128k -y "
         +:+ double_quote +:+ outputPath +:+ double_quote in
     exec_silence cmd;;
     created ← existsSync outputPath;
     if created then log info (SilenceGenerated outputPath)
     else throw (mkError "Output file was not created"))
    (λ err, log error (ErrorGeneratingSilence (error_message err));; throw err).

(** The promise resolves with [metadata.format.duration || 0]: the field
    when it is truthy, whatever its type. *)
Definition getAudioDuration (filePath : string) : M FormatField := λ fs,
  match ffprobe filePath fs with
  | Throw err =>
      (emit (Probe filePath);;
       log error (ErrorProbing filePath (error_message err));;
       throw err) fs
  | Ok duration =>
      (emit (Probe filePath);;
       ret (match duration with
             | Some (AsNumber d) =>
                 if JS.truthy_number d then AsNumber d else AsNumber (JS.Fin 0)
             | Some (AsString s) =>
                 if JS.truthy s then AsString s else AsNumber (JS.Fin 0)
             | None => AsNumber (JS.Fin 0)
             end)) fs
  end.

(** [file.replace(/'/g, "'\\''")] *)
Fixpoint escape_quotes (file : string) : string :=
  match file with
  | EmptyString => EmptyString
  | String c r =>
      (if Ascii.eqb c "'" then "'\''" else String c EmptyString) +:+ escape_quotes r
  end.

Definition concat_entry (file : string) : string :=
  "file '" +:+ escape_quotes file +:+ "'".

Definition concatListContent (filesToConcat : list string) : string :=
  String.concat newline (map concat_entry filesToConcat).

Definition concat_command (concatListPath outputPath : string) : ConcatCommand :=
  {| cc_input := concatListPath;
     cc_inputOptions := ["-f"; "concat"; "-safe"; "0"];
     cc_audioCodec := "libmp3lame";
     cc_audioBitrate := "128k";
     cc_audioFrequency := 44100;
     cc_audioChannels := 2;
     cc_output := outputPath |}.

Definition concatenate (concatListPath outputPath : string) : M unit :=
  log info (ConcatenatingTo outputPath);;
  λ fs,
  let cmd := concat_command concatListPath outputPath in
  match ffmpeg_run cmd fs with
  | (None, fs') => (Ok (), fs', [Concat cmd; Log info ConcatenationCompleted])
  | (Some msg, fs') =>
      (Throw (mkError msg), fs', [Concat cmd; Log error (ErrorConcatenating msg)])
  end.

(** The body of the [for] loop of [combineAudioFiles] at index [i]. *)
Definition plan_step (tempDir : string) (i : nat) (step : AudioSequenceStep)
    (filesToConcat : list string) : M (list string) :=
  if JS.truthy_opt (audio_file_name_and_path step) then
    match audio_file_name_and_path step with
    | Some file =>
        log info (AddingAudioFile (id step) file);;
        ret (filesToConcat ++ [file])
    | None => ret filesToConcat
    end
  else
    match pause_duration step with
    | Some seconds =>
        if JS.gt_zero seconds then
          let silenceFile := path_join tempDir ("silence-" +:+ pretty i +:+ ".mp3") in
          generateSilence seconds silenceFile;;
          ret (filesToConcat ++ [silenceFile])
        else ret filesToConcat
    | None => ret filesToConcat
    end.

(** The [for] loop from index [i] on. *)
Fixpoint plan_loop (tempDir : string) (i : nat) (steps : list AudioSequenceStep)
    (filesToConcat : list string) : M (list string) :=
  match steps with
  | [] => ret filesToConcat
  | step :: rest =>
      filesToConcat' ← plan_step tempDir i step filesToConcat;
      plan_loop tempDir (S i) rest filesToConcat'
  end.

Definition scratch_dir (projectResourcesPath : string) : string :=
  path_join projectResourcesPath "temporary_deletable".

(** The rest of the [try] block, once the loop has filled [filesToConcat]:
    the empty-plan check, the manifest, the concatenation and the probe.
    The duration is formatted with [toFixed] before it is logged, which a
    number has and a string has not. *)
Definition execute (filesToConcat : list string)
    (concatListPath outputPath : string) : M ProcessingResult :=
  if (length filesToConcat =? 0)%nat then
    throw (mkError "No audio files or pauses to process")
  else
    writeFileSync concatListPath (concatListContent filesToConcat);;
    log info (CreatedConcatList (length filesToConcat));;
    concatenate concatListPath outputPath;;
    duration ← getAudioDuration outputPath;
    match duration with
    | AsNumber audioLengthSeconds =>
        log info (FinalAudioDuration audioLengthSeconds);;
        ret {| outputPath := outputPath;
               audioLengthSeconds := audioLengthSeconds |}
    | AsString _ =>
        (* [audioLengthSeconds.toFixed(2)] on a string *)
        throw (mkError "audioLengthSeconds.toFixed is not a function")
    end.

(** The [finally] block. *)
Definition cleanup (tempDir : string) : M unit :=
  log info CleaningUp;;
  found ← existsSync tempDir;
  if found then
    rmSync tempDir;;
    log info (DeletedTemporaryDirectory tempDir)
  else ret ().

Definition combineAudioFiles (steps : list AudioSequenceStep)
    (outputPath projectResourcesPath : string) : M ProcessingResult :=
  log info (StartingAudioProcessing (length steps));;
  let tempDir := scratch_dir projectResourcesPath in
  found ← existsSync tempDir;
  (if negb found then
     mkdirSync tempDir;;
     log info (CreatedTemporaryDirectory tempDir)
   else ret ());;
  let concatListPath := path_join tempDir "concat-list.txt" in
  try_finally
    (filesToConcat ← plan_loop tempDir 0 steps [];
     execute filesToConcat concatListPath outputPath)
    (cleanup tempDir).

(** The [try]/[finally] statement of [combineAudioFiles], by itself. *)
Definition guarded (steps : list AudioSequenceStep) (tempDir outputPath : string)
  : M ProcessingResult :=
  try_finally
    (filesToConcat ← plan_loop tempDir 0 steps [];
     execute filesToConcat (path_join tempDir "concat-list.txt") outputPath)
    (cleanup tempDir).

End WithHost.

(** ** Vocabulary of the specification *)

(** The step has a clip reference: the test of the first branch of the loop. *)
Definition has_clip (step : AudioSequenceStep) : bool :=
  JS.truthy_opt (audio_file_name_and_path step).

(** The step has a positive pause: the test of the second branch. *)
Definition has_pause (step : AudioSequenceStep) : bool :=
  match pause_duration step with
  | Some seconds => JS.gt_zero seconds
  | None => false
  end.

(** The run called the recursive mkdir on [dir]. *)
Definition creates (dir : string) (evs : list Event) : Prop := In (Mkdir dir) evs.

(** Events through which a generated artifact reaches the scratch
    directory: a silence rendering or the manifest write. *)
Definition is_artifact (e : Event) : bool :=
  match e with
  | Silence _ | WriteFile _ _ => true
  | _ => false
  end.



Fixpoint all_chars (f : ascii → bool) (s : string) : bool :=
  match s with
  | EmptyString => true
  | String c r => f c && all_chars f r
  end.

(** A line of a text ends at a line feed or a carriage return. *)
Definition is_line_break (c : ascii) : bool :=
  Ascii.eqb c (ascii_of_nat 10) || Ascii.eqb c (ascii_of_nat 13).

Definition no_line_break (s : string) : bool :=
  all_chars (λ c, negb (is_line_break c)) s.

(** The lines of a text: the pieces between line breaks. *)
Fixpoint lines (s : string) : list string :=
  match s with
  | EmptyString => [EmptyString]
  | String c r =>
      if is_line_break c then EmptyString :: lines r
      else match lines r with
           | l :: ls => String c l :: ls
           | [] => [String c EmptyString]
           end
  end.

(** A string begins with a numeric prefix: after optional white space and
    an optional sign comes [Infinity], a digit, or a point and a digit. *)
Definition numeric_start (body : string) : Prop :=
  body = "Infinity"
  ∨ (∃ d, JS.is_digit d = true ∧ body = String d EmptyString)
  ∨ (∃ d, JS.is_digit d = true ∧ body = String "." (String d EmptyString)).

Definition has_numeric_prefix (s : string) : Prop :=
  ∃ ws sign body rest,
    s = ws +:+ sign +:+ body +:+ rest
    ∧ all_chars JS.is_whitespace ws = true
    ∧ (sign = "" ∨ sign = "+" ∨ sign = "-")
    ∧ numeric_start body.

(** The test behind [numeric_start]: the head of [body] is [Infinity], a
    digit, or a point and a digit. *)
Definition starts_numeric (body : string) : bool :=
  String.prefix "Infinity" body
  || match body with
     | String c r =>
         JS.is_digit c
         || (Ascii.eqb c "."
             && match r with String d _ => JS.is_digit d | EmptyString => false end)
     | EmptyString => false
     end.

(** A character that cannot continue a run of digits into a longer
    literal. *)
Definition ends_number (rest : string) : bool :=
  match rest with
  | EmptyString => true
  | String c _ =>
      negb (JS.is_digit c || Ascii.eqb c "." || Ascii.eqb c "e" || Ascii.eqb c "E")
  end.

(** ** The concat demuxer's reading of a [file] line

    A reference model of how the external tool reads one directive, after
    its documented quoting rules: outside quotes a backslash takes the next
    character literally and white space ends the word; between single
    quotes every character is literal and the quote itself cannot occur. *)

Inductive Quoting : Type := Plain | Quoted | Escaped.

Fixpoint unquote (mode : Quoting) (s : string) : string :=
  match s with
  | EmptyString => EmptyString
  | String c r =>
      match mode with
      | Plain =>
          if Ascii.eqb c "'" then unquote Quoted r
          else if Ascii.eqb c "\" then
            match r with
            | EmptyString => String c EmptyString
            | _ => unquote Escaped r
            end
          else if JS.is_whitespace c then EmptyString
          else String c (unquote Plain r)
      | Quoted =>
          if Ascii.eqb c "'" then unquote Plain r
          else String c (unquote Quoted r)
      | Escaped => String c (unquote Plain r)
      end
  end.

(** The file named by a line of the manifest, if it is a [file] directive. *)
Definition file_directive (line : string) : option string :=
  match line with
  | String "f" (String "i" (String "l" (String "e" (String " " word)))) =>
      Some (unquote Plain (JS.trimStart word))
  | _ => None
  end.





(** ** A host to run the model on

    Every tool succeeds: the silence generator and the concatenation create
    their output file, the probe reports ten seconds. *)

Fixpoint drop_last (s : string) : string :=
  match s with
  | EmptyString => EmptyString
  | String c EmptyString => EmptyString
  | String c r => String c (drop_last r)
  end.

Fixpoint after_double_quote (s : string) : string :=
  match s with
  | EmptyString => EmptyString
  | String c r =>
      if Ascii.eqb c (ascii_of_nat 34) then r else after_double_quote r
  end.

Definition demo_toString (n : JS.number) : string :=
  match n with
  | JS.NaN => "NaN"
  | JS.Infinity negative => if negative then "-Infinity" else "Infinity"
  | JS.Fin q => pretty (Qnum q / Zpos (Qden q))
  end.

Definition demo_execSync (cmd : string) (fs : FS) : result string * FS :=
  if String.eqb cmd "which ffmpeg"
  then (Ok ("/usr/bin/ffmpeg" +:+ String (ascii_of_nat 10) EmptyString), fs)
  else (Ok "", <[drop_last (after_double_quote cmd) := File "silence"]> fs).

Definition demo_host : Host :=
  {| path_join a b := a +:+ "/" +:+ b;
     number_toString := demo_toString;
     execSync := demo_execSync;
     ffmpeg_run cmd fs := (None, <[cc_output cmd := File "mp3"]> fs);
     ffprobe _ _ := Ok (Some (AsNumber (JS.Fin 10)));
     csv_records _ _ := ([], None) |}.

(** The demo host with a probe that has no duration to report: ffprobe
    prints [N/A], which fluent-ffmpeg hands over as it is. *)
Definition no_duration_host : Host :=
  {| path_join := path_join (Host := demo_host);
     number_toString := demo_toString;
     execSync := demo_execSync;
     ffmpeg_run := ffmpeg_run (Host := demo_host);
     ffprobe _ _ := Ok (Some (AsString "N/A"));
     csv_records _ _ := ([], None) |}.

(** A host whose tools all fail. *)
Definition failing_host : Host :=
  {| path_join a b := a +:+ "/" +:+ b;
     number_toString := demo_toString;
     execSync _ fs := (Throw (mkError "spawn failed"), fs);
     ffmpeg_run _ fs := (Some "ffmpeg exited with code 1", fs);
     ffprobe _ _ := Throw (mkError "ffprobe failed");
     csv_records _ _ := ([], None) |}.

(** The demo host reading a CSV file with the given records. *)
Definition csv_host (rows : list Row) : Host :=
  {| path_join := path_join (Host := demo_host);
     number_toString := demo_toString;
     execSync := demo_execSync;
     ffmpeg_run := ffmpeg_run (Host := demo_host);
     ffprobe := ffprobe (Host := demo_host);
     csv_records _ _ := (rows, None) |}.

Definition clip (i f : string) : AudioSequenceStep :=
  {| id := i; audio_file_name_and_path := Some f; pause_duration := None |}.

Definition pause (i : string) (seconds : Q) : AudioSequenceStep :=
  {| id := i; audio_file_name_and_path := None;
     pause_duration := Some (JS.Fin seconds) |}.

(** Scenario A of the specification. *)
Definition scenario_A : list AudioSequenceStep :=
  [clip "1" "a.mp3"; pause "2" 2; clip "3" "b.mp3"].

(** Scenario B of the specification: a single pause that is not a number. *)
Definition scenario_B_rows : list Row :=
  [{| row_id := "1"; row_audio_file_name_and_path := None;
      row_pause_duration := Some "abc" |}].

Definition scenario_B : list AudioSequenceStep := step_of_row <$> scenario_B_rows.

(** A file with a good clip row, a row whose pause is no number, and a
    pause row. *)
Definition sample_rows : list Row :=
  [{| row_id := "1"; row_audio_file_name_and_path := Some "a.mp3";
      row_pause_duration := None |};
   {| row_id := "2"; row_audio_file_name_and_path := None;
      row_pause_duration := Some "abc" |};
   {| row_id := "3"; row_audio_file_name_and_path := None;
      row_pause_duration := Some "2.5" |}].

(** Rows that break the one-field rule: a clip with a positive pause, a
    clip with a pause that is no number. *)
Definition row_clip_and_pause : Row :=
  {| row_id := "4"; row_audio_file_name_and_path := Some " a.mp3 ";
     row_pause_duration := Some "3" |}.


Definition row_5abc : Row :=
  {| row_id := "7"; row_audio_file_name_and_path := None;
     row_pause_duration := Some "5abc" |}.

(** ** More vocabulary: what the loop is to produce *)

Section Segments.
Context `{Host}.

(** The segment the loop pushes for the step at index [i], if any: the
    clip, or the silence file named after the index. *)
Definition segment_of (tempDir : string) (i : nat) (step : AudioSequenceStep)
  : option string :=
  if has_clip step then audio_file_name_and_path step
  else if has_pause step
       then Some (path_join tempDir ("silence-" +:+ pretty i +:+ ".mp3"))
       else None.

(** The segments of the steps from index [i] on, in step order. *)
Fixpoint planned (tempDir : string) (i : nat) (steps : list AudioSequenceStep)
  : list string :=
  match steps with
  | [] => []
  | step :: rest =>
      match segment_of tempDir i step with
      | Some file => file :: planned tempDir (S i) rest
      | None => planned tempDir (S i) rest
      end
  end.

End Segments.

Definition is_silence (e : Event) : bool :=
  match e with Silence _ => true | _ => false end.

(** Events of the concatenation stage: the manifest, the tool, the probe. *)
Definition is_execute_event (e : Event) : bool :=
  match e with
  | WriteFile _ _ | Concat _ | Probe _ => true
  | _ => false
  end.

(** A file name that is one path segment: not empty, not [.] or [..], and
    with no separator in it.  Joining a directory with such a name appends
    the name as the last segment of the result. *)
Definition is_separator (c : ascii) : bool :=
  Ascii.eqb c "/" || Ascii.eqb c (ascii_of_nat 92).

Definition plain_name (name : string) : bool :=
  negb (String.eqb name "") && negb (String.eqb name ".")
    && negb (String.eqb name "..")
    && all_chars (λ c, negb (is_separator c)) name.

(** The step is as the reader makes them: a clip path is trimmed and not
    empty, a pause is a number. *)
Definition clean_step (step : AudioSequenceStep) : Prop :=
  (∀ file, audio_file_name_and_path step = Some file →
           file ≠ "" ∧ JS.trim file = file)
  ∧ (∀ seconds, pause_duration step = Some seconds → seconds ≠ JS.NaN).

(** ** fileValidator.ts, the start of audioProcessor.ts and main.ts

    These log lines of their own and write to the console; what they do is
    a list of actions, among them the events of the reader and of the
    processor. *)

(** A line of text handed to the logger or to the console. *)
Inductive Line : Type :=
| Text (text : string)
(** [Audio length: ${seconds.toFixed(2)} seconds] *)
| AudioLength (seconds : JS.number)
(** [error.stack || ""] *)
| StackOf (e : Error).

Inductive Action : Type :=
| Core (e : Event)
| Logger (level : Level) (line : Line)
| Console (to_stderr : bool) (line : Line)
| SetFfmpegPath (p : string)
(** the runtime reports an error that nothing caught and ends the process
    with code 1 *)
| Uncaught (e : Error).

(** [accessSync(p, W_OK)] returns rather than throws. *)
Class Access : Type := {
  writable : string → FS → bool;
}.

Definition has_audio_path (step : AudioSequenceStep) : bool :=
  match audio_file_name_and_path step with Some _ => true | None => false end.

(** The loop of [validateAudioFiles]: the missing files and the error
    lines, in step order. *)
Fixpoint check_audio_files (fs : FS) (audioSteps : list AudioSequenceStep)
  : list string * list Action :=
  match audioSteps with
  | [] => ([], [])
  | step :: rest =>
      let (missingFiles, lines) := check_audio_files fs rest in
      match audio_file_name_and_path step with
      | Some filePath =>
          if negb (fs_exists fs filePath) then
            (filePath :: missingFiles,
             Logger error (Text ("Audio file not found for step " +:+ id step
                                   +:+ ": " +:+ filePath)) :: lines)
          else (missingFiles, lines)
      | None => (missingFiles, lines)
      end
  end.

Definition validateAudioFiles (steps : list AudioSequenceStep) (fs : FS)
  : bool * list Action :=
  let audioSteps := List.filter has_audio_path steps in
  let (missingFiles, lines) := check_audio_files fs audioSteps in
  if (0 <? length missingFiles)%nat then
    (false,
     Logger info (Text "Validating audio files existence...")
       :: lines
       ++ [Logger error (Text ("Validation failed: " +:+ pretty (length missingFiles)
                                 +:+ " audio file(s) not found"))])
  else
    (true,
     Logger info (Text "Validating audio files existence...")
       :: lines
       ++ [Logger info (Text ("All " +:+ pretty (length audioSteps)
                                +:+ " audio files validated successfully"))]).

Definition validateOutputDirectory `{Access} (outputDir : string) (fs : FS)
  : bool * list Action :=
  let begin := Logger info (Text ("Validating output directory: " +:+ outputDir)) in
  if negb (fs_exists fs outputDir) then
    (false,
     [begin; Logger error (Text ("Output directory does not exist: " +:+ outputDir))])
  else if negb (is_dir fs outputDir) then
    (false,
     [begin; Logger error (Text ("Output path is not a directory: " +:+ outputDir))])
  else if writable outputDir fs then
    (true,
     [begin;
      Logger info (Text ("Output directory validated successfully: " +:+ outputDir))])
  else
    (false,
     [begin; Logger error (Text ("Output directory is not writable: " +:+ outputDir))]).

Definition commonPaths : list string :=
  ["/opt/homebrew/bin/ffmpeg"; "/usr/local/bin/ffmpeg"; "/usr/bin/ffmpeg"].

(** The [for] loop of [findAndSetFfmpegPath]. *)
Fixpoint first_existing (fs : FS) (paths : list string) : option string :=
  match paths with
  | [] => None
  | ffmpegPath :: rest =>
      if fs_exists fs ffmpegPath then Some ffmpegPath else first_existing fs rest
  end.

Definition use_ffmpeg (ffmpegPath : string) : list Action :=
  [SetFfmpegPath ffmpegPath; Logger info (Text ("Using FFmpeg at: " +:+ ffmpegPath))].

(** [findAndSetFfmpegPath], run when audioProcessor.ts is loaded. *)
Definition findAndSetFfmpegPath `{Host} (fs : FS) : result unit * FS * list Action :=
  let '(found, fs1) := execSync "which ffmpeg" fs in
  let looked :=
    match found with
    | Ok stdout =>
        let ffmpegPath := JS.trim stdout in
        if JS.truthy ffmpegPath && fs_exists fs1 ffmpegPath
        then inl ffmpegPath else inr [Core Which]
    | Throw _ =>
        inr [Core Which;
             Logger warn (Text "Could not find ffmpeg using 'which', trying common paths")]
    end in
  match looked with
  | inl ffmpegPath => (Ok (), fs1, Core Which :: use_ffmpeg ffmpegPath)
  | inr sofar =>
      match first_existing fs1 commonPaths with
      | Some ffmpegPath => (Ok (), fs1, sofar ++ use_ffmpeg ffmpegPath)
      | None =>
          (Throw (mkError "FFmpeg not found"), fs1,
           sofar ++ [Logger error (Text "Could not find FFmpeg installation. Please install FFmpeg and ensure it's in your PATH.")])
      end
  end.

(** The environment variables [main] reads. *)
Record Env : Type := {
  PATH_AND_FILENAME_AUDIO_CSV_FILE : option string;
  PATH_MP3_OUTPUT : option string;
  PATH_PROJECT_RESOURCES : option string;
}.

(** [new Date()], by the getters [main] calls (local time). *)
Record Clock : Type := {
  getFullYear : nat;
  getMonth : nat;
  getDate : nat;
  getHours : nat;
  getMinutes : nat;
  getSeconds : nat;
}.

(** [n] characters of [padString] repeated, starting in [current]. *)
Fixpoint pad_fill (n : nat) (padString current : string) : string :=
  match n with
  | O => EmptyString
  | S n' =>
      match current with
      | String c r => String c (pad_fill n' padString r)
      | EmptyString =>
          match padString with
          | String c r => String c (pad_fill n' padString r)
          | EmptyString => EmptyString
          end
      end
  end.

(** [String.prototype.padStart] *)
Definition padStart (targetLength : nat) (padString s : string) : string :=
  pad_fill (targetLength - String.length s) padString padString +:+ s.

Definition timestamp (now : Clock) : string :=
  pretty (getFullYear now)
    +:+ padStart 2 "0" (pretty (getMonth now + 1)%nat)
    +:+ padStart 2 "0" (pretty (getDate now))
    +:+ "_"
    +:+ padStart 2 "0" (pretty (getHours now))
    +:+ padStart 2 "0" (pretty (getMinutes now))
    +:+ padStart 2 "0" (pretty (getSeconds now)).

Definition outputFileName (now : Clock) : string := "output_" +:+ timestamp now +:+ ".mp3".

(** A variable that is set and not empty. *)
Definition required (value : option string) : option string :=
  match value with
  | Some s => if JS.truthy s then Some s else None
  | None => None
  end.

(** What [main] does when a step of its own fails: the message goes to the
    logger and to the console, and the process exits with code 1. *)
Definition fail_with (prefix errorMsg : string) : list Action :=
  [Logger error (Text errorMsg); Console true (Text (prefix +:+ errorMsg))].

Section Main.
Context `{Host} `{Access}.

(** Steps 1 to 5 of [main], with the variables read. *)
Definition main_steps (csv out resources : string) (now : Clock) (fs : FS)
  : nat * FS * list Action :=
  let outputFilePath := path_join out (outputFileName now) in
  let opening :=
    [Logger info (Text ("CSV file: " +:+ csv));
     Logger info (Text ("Output directory: " +:+ out));
     Logger info (Text ("Generated output filename: " +:+ outputFileName now));
     Logger info (Text ("Full output path: " +:+ outputFilePath))] in
  let '(parsed, fs1, read) := parseAudioSequenceCSV csv fs in
  match parsed with
  | Throw e =>
      (1%nat, fs1,
       opening ++ (Core <$> read)
         ++ fail_with "ERROR: " ("Failed to parse CSV file: " +:+ error_message e))
  | Ok audioSequence =>
      let (dir_ok, dir_lines) := validateOutputDirectory out fs1 in
      if negb dir_ok then
        (1%nat, fs1,
         opening ++ (Core <$> read) ++ dir_lines
           ++ fail_with "ERROR: " "Output directory validation failed")
      else
        let (files_ok, file_lines) := validateAudioFiles audioSequence fs1 in
        if negb files_ok then
          (1%nat, fs1,
           opening ++ (Core <$> read) ++ dir_lines ++ file_lines
             ++ fail_with "ERROR: "
                  "Audio file validation failed - one or more files not found")
        else
          let before :=
            opening ++ (Core <$> read) ++ dir_lines ++ file_lines
              ++ [Logger info (Text "All validations passed - starting audio processing")] in
          let '(processed, fs2, work) :=
            combineAudioFiles audioSequence outputFilePath resources fs1 in
          match processed with
          | Ok result =>
              (0%nat, fs2,
               before ++ (Core <$> work)
                 ++ [Logger info (Text "=== Processing Complete ===");
                     Logger info (Text ("Output file: " +:+ outputPath result));
                     Logger info (AudioLength (audioLengthSeconds result));
                     Console false (Text (newline +:+ "=== Success ==="));
                     Console false (Text ("Output file: " +:+ outputPath result));
                     Console false (AudioLength (audioLengthSeconds result))])
          | Throw e =>
              (1%nat, fs2,
               before ++ (Core <$> work)
                 ++ [Logger error (Text ("Unexpected error: " +:+ error_message e));
                     Logger error (StackOf e);
                     Console true
                       (Text ("FATAL ERROR: " +:+ "Unexpected error: "
                                +:+ error_message e))])
          end
  end.

(** The body of [main]: the exit code of the process, the disk it leaves
    and what it did.  (The logger and audioProcessor.ts are loaded before
    it runs.) *)
Definition main (env : Env) (now : Clock) (fs : FS) : nat * FS * list Action :=
  let begin := [Logger info (Text "=== Morning Meditation Mantra 01 - Starting ===")] in
  let unset name :=
    (1%nat, fs,
     begin ++ fail_with "FATAL ERROR: " (name +:+ " environment variable is not set")) in
  match required (PATH_AND_FILENAME_AUDIO_CSV_FILE env) with
  | None => unset "PATH_AND_FILENAME_AUDIO_CSV_FILE"
  | Some csv =>
      match required (PATH_MP3_OUTPUT env) with
      | None => unset "PATH_MP3_OUTPUT"
      | Some out =>
          match required (PATH_PROJECT_RESOURCES env) with
          | None => unset "PATH_PROJECT_RESOURCES"
          | Some resources =>
              let '(code, fs', actions) := main_steps csv out resources now fs in
              (code, fs', begin ++ actions)
          end
      end
  end.

End Main.

(** [fs.createReadStream(p)]: the error the file stream emits while it is
    read (the path names a directory, the file cannot be read), if any,
    and the records csv-parser has delivered before it. *)
Class FileStream : Type := {
  read_error : string → FS → option (list Row * Error);
}.

(** [node main.js].  [parseAudioSequenceCSV] listens for errors on the
    csv() stream only (lines 21, 22 and 46 of csvParser.ts): an error of
    the file stream has no listener, so the runtime reports it as uncaught
    and ends the process with code 1 while [main] awaits a promise that
    never settles.  The reader has then logged its opening line and the
    warnings of the records delivered.  Otherwise the process is [main]. *)
Definition run_main `{Host} `{Access} `{FileStream} (env : Env) (now : Clock) (fs : FS)
  : nat * FS * list Action :=
  match required (PATH_AND_FILENAME_AUDIO_CSV_FILE env),
        required (PATH_MP3_OUTPUT env),
        required (PATH_PROJECT_RESOURCES env) with
  | Some csv, Some out, Some _ =>
      match (if fs_exists fs csv then read_error csv fs else None) with
      | Some (rows, e) =>
          (1%nat, fs,
           [Logger info (Text "=== Morning Meditation Mantra 01 - Starting ===");
            Logger info (Text ("CSV file: " +:+ csv));
            Logger info (Text ("Output directory: " +:+ out));
            Logger info (Text ("Generated output filename: " +:+ outputFileName now));
            Logger info
              (Text ("Full output path: " +:+ path_join out (outputFileName now)))]
             ++ (Core <$> Log info (ParsingCsv csv) :: (rows ≫= row_warnings))
             ++ [Uncaught e])
      | None => main env now fs
      end
  | _, _, _ => main env now fs
  end.

(** A line logged at error level, by the entry point or below it. *)
Definition is_error_log (a : Action) : bool :=
  match a with
  | Logger error _ | Core (Log error _) => true
  | _ => false
  end.

(** An action that touches the disk or runs a tool. *)
Definition is_work (a : Action) : bool :=
  match a with
  | Core (Log _ _) => false
  | Core _ => true
  | SetFfmpegPath _ => true
  | _ => false
  end.

Definition is_set_path (a : Action) : bool :=
  match a with SetFfmpegPath _ => true | _ => false end.

(** Every output directory is writable. *)
Definition open_access : Access := {| writable _ _ := true |}.

(** Reading a directory fails at once; every file is read to its end. *)
Definition directory_fault : FileStream :=
  {| read_error p fs :=
       if is_dir fs p
       then Some ([], mkError "EISDIR: illegal operation on a directory, read")
       else None |}.

Definition noon : Clock :=
  {| getFullYear := 2026; getMonth := 0; getDate := 5;
     getHours := 12; getMinutes := 3; getSeconds := 9 |}.

(** What the getters of a [Date] return. *)
Definition valid_clock (now : Clock) : Prop :=
  (getMonth now < 12 ∧ 1 ≤ getDate now ≤ 31 ∧ getHours now < 24
   ∧ getMinutes now < 60 ∧ getSeconds now < 60)%nat.

(** The eleventh of January and the first of November, at noon. *)
Definition january_11 : Clock :=
  {| getFullYear := 2026; getMonth := 0; getDate := 11;
     getHours := 12; getMinutes := 0; getSeconds := 0 |}.

Definition november_1 : Clock :=
  {| getFullYear := 2026; getMonth := 10; getDate := 1;
     getHours := 12; getMinutes := 0; getSeconds := 0 |}.

(** Scenario A as the records of a CSV file, the variables of a run and a
    disk that has the file, the output directory and both clips. *)
Definition scenario_A_rows : list Row :=
  [{| row_id := "1"; row_audio_file_name_and_path := Some "a.mp3";
      row_pause_duration := None |};
   {| row_id := "2"; row_audio_file_name_and_path := None;
      row_pause_duration := Some "2" |};
   {| row_id := "3"; row_audio_file_name_and_path := Some "b.mp3";
      row_pause_duration := None |}].

Definition demo_env : Env :=
  {| PATH_AND_FILENAME_AUDIO_CSV_FILE := Some "seq.csv";
     PATH_MP3_OUTPUT := Some "/out";
     PATH_PROJECT_RESOURCES := Some "/res" |}.

Definition demo_disk : FS :=
  <["a.mp3" := File "clip"]>
    (<["b.mp3" := File "clip"]> (<["seq.csv" := File "csv"]> (fs_mkdir "/out" ∅))).

(** Unfolds the primitive computations. *)
Ltac run :=
  unfold bind, ret, throw, log, emit, existsSync, mkdirSync, rmSync,
    outcome, disk, events; simpl.

(** * Properties *)

(** ** Strings and paths *)

Lemma append_cons (x : ascii) (a b : string) : String x a +:+ b = String x (a +:+ b).
Proof. reflexivity. Qed.

Lemma append_empty_l (a : string) : "" +:+ a = a.
Proof. reflexivity. Qed.

Lemma append_assoc (a b c : string) : (a +:+ b) +:+ c = a +:+ b +:+ c.
Proof.
  induction a as [|x a IH]; [reflexivity|].
  rewrite !append_cons. by f_equal.
Qed.

Lemma append_empty_r (a : string) : a +:+ "" = a.
Proof.
  induction a as [|x a IH]; [reflexivity|].
  rewrite append_cons. by f_equal.
Qed.

Lemma prefix_spec (a b : string) :
  String.prefix a b = true ↔ ∃ r, b = a +:+ r.
Proof.
  revert b. induction a as [|x a IH]; intros [|y b]; simpl.
  - split; [intros _; by exists "" | done].
  - split; [intros _; by exists (String y b) | done].
  - split; [done | intros [r Hr]; discriminate].
  - destruct (Ascii.ascii_dec x y) as [->|Hne].
    + rewrite IH. split; intros [r Hr]; exists r; rewrite append_cons in *; congruence.
    + split; [done | intros [r Hr]; rewrite append_cons in Hr; congruence].
Qed.

Lemma in_tree_spec (d p : string) :
  in_tree d p = true ↔ p = d ∨ is_under d p.
Proof.
  unfold in_tree, is_under. rewrite orb_true_iff, String.eqb_eq, prefix_spec.
  split; intros [?|[r Hr]]; auto; right; exists r; by rewrite Hr, ?append_assoc.
Qed.

Lemma ancestors_from_spec (seen s d : string) :
  d ∈ ancestors_from seen s ↔ ∃ a rest, s = a +:+ "/" +:+ rest ∧ d = seen +:+ a.
Proof.
  revert seen. induction s as [|c s IH]; intros seen; simpl.
  - split; [intros Hin; inversion Hin | intros ([|??] & rest & Hs & _); discriminate].
  - rewrite elem_of_app, IH. split.
    + intros [Hin | (a & rest & -> & ->)].
      * destruct (Ascii.eqb_spec c "/") as [->|]; [|inversion Hin].
        apply list_elem_of_singleton in Hin as ->.
        exists "", s. by rewrite append_empty_r.
      * exists (String c a), rest. by rewrite append_assoc.
    + intros ([|x a] & rest & Hs & ->).
      * left. rewrite append_empty_l, append_cons in Hs. injection Hs as -> ->.
        rewrite append_empty_r. simpl. by left.
      * right. rewrite append_cons in Hs. injection Hs as -> ->.
        exists a, rest. by rewrite append_assoc.
Qed.

Lemma ancestors_spec (p d : string) : d ∈ ancestors p ↔ is_under d p.
Proof.
  unfold ancestors, is_under. rewrite ancestors_from_spec.
  split; [intros (a & rest & -> & ->) | intros [rest ->]]; eauto.
Qed.

Lemma is_under_trans (a b c : string) : is_under a b → is_under b c → is_under a c.
Proof.
  intros [r1 ->] [r2 ->]. exists (r1 +:+ "/" +:+ r2). by rewrite !append_assoc.
Qed.

(** ** The file system *)

Lemma fs_exists_spec (fs : FS) (p : string) :
  fs_exists fs p = true ↔ present fs p = true ∧ ∀ d, is_under d p → present fs d = true.
Proof.
  unfold fs_exists. rewrite andb_true_iff, forallb_forall.
  split; intros [Hp Hd]; split; auto; intros d Hin.
  - apply Hd, list_elem_of_In, ancestors_spec, Hin.
  - apply Hd, ancestors_spec, list_elem_of_In, Hin.
Qed.

(** What exists lies in a directory that exists. *)
Lemma fs_exists_above (fs : FS) (d p : string) :
  is_under d p → fs_exists fs p = true → fs_exists fs d = true.
Proof.
  rewrite !fs_exists_spec. intros Hdp [_ Hall]. split; [by apply Hall|].
  intros d' Hd'. apply Hall. by eapply is_under_trans.
Qed.

Lemma present_fs_rm (d : string) (fs : FS) (p : string) :
  in_tree d p = true → present (fs_rm d fs) p = false.
Proof.
  intros Hin. unfold present, fs_rm.
  destruct (filter _ fs !! p) eqn:E; [|reflexivity].
  apply map_lookup_filter_Some in E as [_ E]. simpl in E. congruence.
Qed.

Lemma fs_exists_fs_rm (d : string) (fs : FS) (p : string) :
  in_tree d p = true → fs_exists (fs_rm d fs) p = false.
Proof. intros Hin. unfold fs_exists. by rewrite present_fs_rm. Qed.

Lemma present_ensure_dir (d : string) (fs : FS) (p : string) :
  present (ensure_dir d fs) p = String.eqb p d || present fs p.
Proof.
  unfold ensure_dir, present.
  destruct (String.eqb_spec p d) as [->|Hne]; simpl.
  - destruct (fs !! d) eqn:E; [by rewrite E | by rewrite lookup_insert_eq].
  - destruct (fs !! d) eqn:E; [done | by rewrite lookup_insert_ne].
Qed.

Lemma present_foldr_ensure_dir (ds : list string) (fs : FS) (p : string) :
  present (foldr ensure_dir fs ds) p = true ↔ p ∈ ds ∨ present fs p = true.
Proof.
  induction ds as [|d ds IH]; simpl.
  - split; [auto | intros [Hin|Hp]; [inversion Hin | done] ].
  - rewrite present_ensure_dir, orb_true_iff, IH, String.eqb_eq, elem_of_cons. tauto.
Qed.

(** After the recursive mkdir the directory exists. *)
Lemma fs_exists_fs_mkdir (p : string) (fs : FS) : fs_exists (fs_mkdir p fs) p = true.
Proof.
  apply fs_exists_spec. unfold fs_mkdir. split.
  - apply present_foldr_ensure_dir. left. by left.
  - intros d Hd. apply present_foldr_ensure_dir. left.
    apply elem_of_cons. right. by apply ancestors_spec.
Qed.

(** ** Running computations *)

Section Processor.
Context `{Host}.

Lemma cleanup_run (tempDir : string) (fs : FS) :
  cleanup tempDir fs =
  if fs_exists fs tempDir
  then (Ok (), fs_rm tempDir fs,
        [Log info CleaningUp; Rm tempDir;
         Log info (DeletedTemporaryDirectory tempDir)])
  else (Ok (), fs, [Log info CleaningUp]).
Proof. unfold cleanup. run. by destruct (fs_exists fs tempDir). Qed.

(** The [finally] block leaves nothing of the scratch directory, whatever
    the [try] block did. *)
Lemma cleanup_removes {A : Type} (body : M A) (tempDir : string) (fs : FS) (p : string) :
  in_tree tempDir p = true →
  fs_exists (disk (try_finally body (cleanup tempDir) fs)) p = false.
Proof.
  intros Hin. unfold try_finally, disk. destruct (body fs) as [[r fs1] ev1].
  rewrite cleanup_run. destruct (fs_exists fs1 tempDir) eqn:E; simpl.
  - by apply fs_exists_fs_rm.
  - apply in_tree_spec in Hin as [->|Hunder]; [done|].
    destruct (fs_exists fs1 p) eqn:Ep; [|done].
    by rewrite (fs_exists_above _ _ _ Hunder Ep) in E.
Qed.

Lemma try_finally_cleanup {A : Type} (body : M A) (tempDir : string) (fs : FS) :
  try_finally body (cleanup tempDir) fs
  = (outcome (body fs),
     disk (cleanup tempDir (disk (body fs))),
     events (body fs) ++ events (cleanup tempDir (disk (body fs)))).
Proof.
  unfold try_finally, outcome, disk, events. destruct (body fs) as [[r fs1] ev1].
  cbn [fst snd]. rewrite cleanup_run. by destruct (fs_exists fs1 tempDir).
Qed.

(** [combineAudioFiles] is its preamble, which creates the scratch directory
    when it is missing, followed by the guarded block. *)
Lemma combineAudioFiles_run (steps : list AudioSequenceStep)
    (outputPath projectResourcesPath : string) (fs : FS) :
  let tempDir := scratch_dir projectResourcesPath in
  let found := fs_exists fs tempDir in
  let block :=
    guarded steps tempDir outputPath (if found then fs else fs_mkdir tempDir fs) in
  combineAudioFiles steps outputPath projectResourcesPath fs
  = (outcome block, disk block,
     Log info (StartingAudioProcessing (length steps))
       :: (if found then []
           else [Mkdir tempDir; Log info (CreatedTemporaryDirectory tempDir)])
       ++ events block).
Proof.
  unfold combineAudioFiles, guarded.
  match goal with |- context [try_finally ?b ?f] => generalize (try_finally b f) end.
  intros block. run.
  destruct (fs_exists fs (scratch_dir projectResourcesPath)); simpl;
    by destruct (block _) as [[??]?].
Qed.

Lemma outcome_combineAudioFiles (steps : list AudioSequenceStep)
    (outputPath projectResourcesPath : string) (fs : FS) :
  let tempDir := scratch_dir projectResourcesPath in
  outcome (combineAudioFiles steps outputPath projectResourcesPath fs)
  = outcome (guarded steps tempDir outputPath
               (if fs_exists fs tempDir then fs else fs_mkdir tempDir fs)).
Proof. by rewrite combineAudioFiles_run. Qed.

Lemma events_combineAudioFiles (steps : list AudioSequenceStep)
    (outputPath projectResourcesPath : string) (fs : FS) :
  let tempDir := scratch_dir projectResourcesPath in
  let found := fs_exists fs tempDir in
  events (combineAudioFiles steps outputPath projectResourcesPath fs)
  = Log info (StartingAudioProcessing (length steps))
      :: (if found then []
          else [Mkdir tempDir; Log info (CreatedTemporaryDirectory tempDir)])
      ++ events (guarded steps tempDir outputPath
                   (if found then fs else fs_mkdir tempDir fs)).
Proof. by rewrite combineAudioFiles_run. Qed.



End Processor.

(** C1: after every call of [combineAudioFiles], whether it returned or
    threw, neither the scratch directory nor anything below it exists. *)
Theorem scratch_dir_removed `{Host} (steps : list AudioSequenceStep)
    (outputPath projectResourcesPath : string) (fs : FS) :
  let after := disk (combineAudioFiles steps outputPath projectResourcesPath fs) in
  fs_exists after (scratch_dir projectResourcesPath) = false
  ∧ ∀ p, is_under (scratch_dir projectResourcesPath) p → fs_exists after p = false.
Proof.
  set (tempDir := scratch_dir projectResourcesPath).
  assert (∀ p, in_tree tempDir p = true →
    fs_exists (disk (combineAudioFiles steps outputPath projectResourcesPath fs)) p = false)
    as Hall.
  { intros p Hin. rewrite combineAudioFiles_run. apply cleanup_removes, Hin. }
  simpl. split.
  - apply Hall, in_tree_spec. by left.
  - intros p Hp. apply Hall, in_tree_spec. by right.
Qed.

(** ** The monad *)

Lemma bind_ret_l {A B : Type} (a : A) (k : A → M B) (fs : FS) :
  (x ← ret a; k x) fs = k a fs.
Proof. unfold bind, ret. by destruct (k a fs) as [[??]?]. Qed.

Lemma bind_assoc {A B C : Type} (m : M A) (f : A → M B) (g : B → M C) (fs : FS) :
  (y ← (x ← m; f x); g y) fs = (x ← m; y ← f x; g y) fs.
Proof.
  unfold bind. destruct (m fs) as [[[a|e] fs1] ev1]; [|done].
  destruct (f a fs1) as [[[b|e] fs2] ev2]; [|done].
  destruct (g b fs2) as [[r fs3] ev3]. by rewrite app_assoc.
Qed.

Lemma bind_ext {A B : Type} (m : M A) (k1 k2 : A → M B) (fs : FS) :
  (∀ a fs', k1 a fs' = k2 a fs') → (x ← m; k1 x) fs = (x ← m; k2 x) fs.
Proof.
  intros Hk. unfold bind. destruct (m fs) as [[[a|e] fs1] ev1]; [|done].
  by rewrite Hk.
Qed.

(** A computation that returns passes its value on. *)
Lemma bind_Ok {A B : Type} (m : M A) (k : A → M B) (fs fs1 : FS) (a : A)
    (ev1 : list Event) :
  m fs = (Ok a, fs1, ev1) →
  (x ← m; k x) fs = (outcome (k a fs1), disk (k a fs1), ev1 ++ events (k a fs1)).
Proof. intros Hm. unfold bind. rewrite Hm. by destruct (k a fs1) as [[??]?]. Qed.

Section Planner.
Context `{Host}.

(** ** The loop of [combineAudioFiles] *)

Lemma plan_step_clip (tempDir : string) (i : nat) (step : AudioSequenceStep)
    (files : list string) (fs : FS) :
  has_clip step = true →
  ∃ file, audio_file_name_and_path step = Some file
    ∧ plan_step tempDir i step files fs
      = (Ok (files ++ [file]), fs, [Log info (AddingAudioFile (id step) file)]).
Proof.
  unfold has_clip, plan_step. intros Hclip. rewrite Hclip.
  destruct (audio_file_name_and_path step) as [file|]; [|done].
  by exists file.
Qed.

Lemma plan_step_skip (tempDir : string) (i : nat) (step : AudioSequenceStep)
    (files : list string) (fs : FS) :
  has_clip step = false → has_pause step = false →
  plan_step tempDir i step files fs = (Ok files, fs, []).
Proof.
  unfold has_clip, has_pause, plan_step. intros -> Hpause.
  destruct (pause_duration step) as [seconds|]; [|done]. by rewrite Hpause.
Qed.

Lemma plan_loop_app (tempDir : string) (i : nat) (before after : list AudioSequenceStep)
    (files : list string) (fs : FS) :
  plan_loop tempDir i (before ++ after) files fs
  = (files' ← plan_loop tempDir i before files;
     plan_loop tempDir (i + length before) after files') fs.
Proof.
  revert i files fs. induction before as [|step before IH]; intros i files fs; simpl.
  - by rewrite bind_ret_l, Nat.add_0_r.
  - rewrite bind_assoc. apply bind_ext. intros files' fs'.
    rewrite IH. by rewrite Nat.add_succ_r.
Qed.

(** A loop over steps that all carry a clip pushes the clips and does
    nothing else but log them. *)
Lemma plan_loop_clips (tempDir : string) (i : nat) (steps : list AudioSequenceStep)
    (files : list string) (fs : FS) :
  Forall (λ step, has_clip step = true) steps →
  ∃ evs, plan_loop tempDir i steps files fs
         = (Ok (files ++ omap audio_file_name_and_path steps), fs, evs)
    ∧ Forall (λ e, ∃ m, e = Log info m) evs.
Proof.
  intros Hall. revert i files. induction Hall as [|step steps Hclip _ IH]; intros i files.
  - exists []. simpl. unfold ret. by rewrite app_nil_r.
  - destruct (plan_step_clip tempDir i step files fs Hclip) as (file & Hfile & Hstep).
    destruct (IH (S i) (files ++ [file])) as (evs & Hloop & Hlogs).
    eexists. simpl. rewrite (bind_Ok _ _ _ _ _ _ Hstep), Hloop, Hfile. simpl.
    rewrite <- app_assoc. split; [reflexivity|].
    constructor; [by eexists | done].
Qed.

(** A loop over steps that contribute nothing does nothing. *)
Lemma plan_loop_skips (tempDir : string) (i : nat) (steps : list AudioSequenceStep)
    (files : list string) (fs : FS) :
  Forall (λ step, has_clip step = false ∧ has_pause step = false) steps →
  plan_loop tempDir i steps files fs = (Ok files, fs, []).
Proof.
  intros Hall. revert i. induction Hall as [|step steps [Hclip Hpause] _ IH]; intros i.
  - done.
  - simpl. rewrite (bind_Ok _ _ _ _ _ _ (plan_step_skip tempDir i step files fs Hclip Hpause)).
    by rewrite IH.
Qed.

Lemma omap_clips (steps : list AudioSequenceStep) :
  Forall (λ step, has_clip step = true) steps →
  Some <$> omap audio_file_name_and_path steps = audio_file_name_and_path <$> steps.
Proof.
  induction 1 as [|step steps Hclip _ IH]; [done|].
  unfold has_clip in Hclip. rewrite fmap_cons, <- IH. cbn.
  by destruct (audio_file_name_and_path step) as [file|].
Qed.

End Planner.

Lemma gt_zero_Fin (q : Q) : JS.gt_zero (JS.Fin q) = false ↔ (q <= 0)%Q.
Proof. simpl. rewrite negb_false_iff. apply Qle_bool_iff. Qed.

(** A pause that is unset, zero or negative is no pause to the loop. *)
Lemma not_positive_has_no_pause (step : AudioSequenceStep) :
  pause_duration step = None
  ∨ (∃ q, pause_duration step = Some (JS.Fin q) ∧ (q <= 0)%Q) →
  has_pause step = false.
Proof.
  unfold has_pause. intros [-> | (q & -> & Hq)]; [done|]. by apply gt_zero_Fin.
Qed.

(** C3: for steps that all carry a clip reference, the loop returns the
    clip references themselves, in step order, nothing added, dropped or
    changed, and leaves the file system alone. *)
Theorem clip_steps_pass_through `{Host} (tempDir : string)
    (steps : list AudioSequenceStep) (fs : FS) :
  Forall (λ step, has_clip step = true) steps →
  ∃ plan,
    outcome (plan_loop tempDir 0 steps [] fs) = Ok plan
    ∧ Some <$> plan = audio_file_name_and_path <$> steps
    ∧ disk (plan_loop tempDir 0 steps [] fs) = fs.
Proof.
  intros Hall.
  destruct (plan_loop_clips tempDir 0 steps [] fs Hall) as (evs & Hrun & _).
  exists (omap audio_file_name_and_path steps). rewrite Hrun.
  split; [done|]. split; [by apply omap_clips | done].
Qed.

(** C4: a step without clip reference whose pause is unset or not positive
    is passed over: the loop body returns the plan it was given, touches
    nothing and logs nothing, and the steps around it run as they would
    in its place, each under its own index. *)
Theorem non_positive_pause_skipped `{Host} (tempDir : string)
    (before after : list AudioSequenceStep) (step : AudioSequenceStep)
    (files : list string) (fs : FS) :
  has_clip step = false →
  has_pause step = false →
  plan_step tempDir (length before) step files fs = (Ok files, fs, [])
  ∧ plan_loop tempDir 0 (before ++ step :: after) [] fs
    = (files' ← plan_loop tempDir 0 before [];
       plan_loop tempDir (S (length before)) after files') fs.
Proof.
  intros Hclip Hpause. split; [by apply plan_step_skip|].
  rewrite plan_loop_app. apply bind_ext. intros files' fs'. simpl.
  rewrite (bind_Ok _ _ _ _ _ _ (plan_step_skip tempDir _ step files' fs' Hclip Hpause)).
  by destruct (plan_loop _ _ after files' fs') as [[??]?].
Qed.

(** C2: when no step has a clip reference or a positive pause, the call
    throws the nothing-to-process error; it writes no manifest, runs no
    tool, and leaves the disk as it found it, less the scratch directory. *)
Theorem empty_plan_is_an_error `{Host} (steps : list AudioSequenceStep)
    (outputPath projectResourcesPath : string) (fs : FS) :
  Forall (λ step, has_clip step = false ∧ has_pause step = false) steps →
  let tempDir := scratch_dir projectResourcesPath in
  let found := fs_exists fs tempDir in
  combineAudioFiles steps outputPath projectResourcesPath fs
  = (Throw (mkError "No audio files or pauses to process"),
     fs_rm tempDir (if found then fs else fs_mkdir tempDir fs),
     Log info (StartingAudioProcessing (length steps))
       :: (if found then []
           else [Mkdir tempDir; Log info (CreatedTemporaryDirectory tempDir)])
       ++ [Log info CleaningUp; Rm tempDir;
           Log info (DeletedTemporaryDirectory tempDir)]).
Proof.
  intros Hall tempDir found.
  assert (∀ fs0, fs_exists fs0 tempDir = true →
    guarded steps tempDir outputPath fs0
    = (Throw (mkError "No audio files or pauses to process"), fs_rm tempDir fs0,
       [Log info CleaningUp; Rm tempDir;
        Log info (DeletedTemporaryDirectory tempDir)])) as Hguarded.
  { intros fs0 Hfound. unfold guarded. rewrite try_finally_cleanup.
    rewrite (bind_Ok _ _ _ _ _ _ (plan_loop_skips tempDir 0 steps [] fs0 Hall)).
    unfold execute, throw, outcome, disk, events.
    cbn [length Nat.eqb fst snd]. by rewrite cleanup_run, Hfound. }
  rewrite combineAudioFiles_run. cbv zeta. fold tempDir found.
  rewrite Hguarded; [done|].
  subst found. destruct (fs_exists fs tempDir) eqn:E; [done|].
  apply fs_exists_fs_mkdir.
Qed.

(** ** The manifest *)

Lemma all_chars_app (f : ascii → bool) (a b : string) :
  all_chars f (a +:+ b) = all_chars f a && all_chars f b.
Proof.
  induction a as [|x a IH]; [reflexivity|].
  rewrite append_cons. simpl. by rewrite IH, andb_assoc.
Qed.

Lemma no_line_break_escape_quotes (file : string) :
  no_line_break file = true → no_line_break (escape_quotes file) = true.
Proof.
  unfold no_line_break. induction file as [|c file IH]; [done|]. simpl.
  intros [Hc Hfile]%andb_true_iff. rewrite all_chars_app, (IH Hfile), andb_true_r.
  destruct (Ascii.eqb c "'"); [reflexivity | simpl; by rewrite Hc].
Qed.

Lemma no_line_break_concat_entry (file : string) :
  no_line_break file = true → no_line_break (concat_entry file) = true.
Proof.
  intros Hfile. unfold concat_entry, no_line_break in *.
  rewrite !all_chars_app. fold (no_line_break (escape_quotes file)).
  by rewrite (no_line_break_escape_quotes _ Hfile).
Qed.

Lemma lines_nonempty (s : string) : lines s ≠ [].
Proof.
  destruct s as [|c s]; simpl; [done|].
  destruct (is_line_break c); [done|]. by destruct (lines s).
Qed.

(** A text without line break is one line. *)
Lemma lines_one (s : string) : no_line_break s = true → lines s = [s].
Proof.
  unfold no_line_break. induction s as [|c s IH]; [done|]. simpl.
  intros [Hc Hs]%andb_true_iff. apply negb_true_iff in Hc. by rewrite Hc, (IH Hs).
Qed.

Lemma lines_app_newline (s t : string) :
  no_line_break s = true → lines (s +:+ newline +:+ t) = s :: lines t.
Proof.
  unfold no_line_break. induction s as [|c s IH]; [done|].
  rewrite append_cons. simpl.
  intros [Hc Hs]%andb_true_iff. apply negb_true_iff in Hc. by rewrite Hc, (IH Hs).
Qed.

Lemma lines_concat (entries : list string) :
  entries ≠ [] →
  Forall (λ e, no_line_break e = true) entries →
  lines (String.concat newline entries) = entries.
Proof.
  intros Hne Hall. induction Hall as [|e entries He Hall IH]; [done|].
  destruct entries as [|e' entries].
  - simpl. by apply lines_one.
  - change (String.concat newline (e :: e' :: entries))
      with (e +:+ newline +:+ String.concat newline (e' :: entries)).
    rewrite (lines_app_newline _ _ He). f_equal. by apply IH.
Qed.

(** Between quotes, the demuxer reads an escaped path back as the path. *)
Lemma unquote_escape_quotes (file rest : string) :
  unquote Quoted (escape_quotes file +:+ String "'" rest)
  = file +:+ unquote Plain rest.
Proof.
  induction file as [|c file IH]; [reflexivity|].
  simpl escape_quotes. rewrite append_assoc.
  destruct (Ascii.eqb_spec c "'") as [->|Hne].
  - change (unquote Quoted ("'\''" +:+ escape_quotes file +:+ String "'" rest))
      with (String "'" (unquote Quoted (escape_quotes file +:+ String "'" rest))).
    by rewrite IH.
  - rewrite append_cons, append_empty_l. simpl unquote.
    apply Ascii.eqb_neq in Hne. by rewrite Hne, IH.
Qed.

(** Reading a manifest entry yields the path it was written for. *)
Lemma file_directive_concat_entry (file : string) :
  file_directive (concat_entry file) = Some file.
Proof.
  unfold concat_entry.
  change (file_directive ("file '" +:+ escape_quotes file +:+ "'"))
    with (Some (unquote Quoted (escape_quotes file +:+ String "'" ""))).
  by rewrite unquote_escape_quotes, append_empty_r.
Qed.

Section Executor.
Context `{Host}.

(** With a plan in hand, the manifest is the first thing written. *)
Lemma execute_writes_manifest (files : list string) (concatListPath outputPath : string)
    (fs : FS) :
  files ≠ [] →
  ∃ rest, events (execute files concatListPath outputPath fs)
          = WriteFile concatListPath (concatListContent files) :: rest.
Proof.
  intros Hne. unfold execute. destruct files as [|f files]; [done|].
  cbn [length Nat.eqb]. unfold bind at 1, writeFileSync.
  destruct (fs_write _ _ fs) as [fs'|e]; [|by eexists].
  match goal with |- context [bind ?m ?k fs'] => destruct (bind m k fs') as [[??]?] end.
  by eexists.
Qed.

End Executor.

(** C5 as stated fails: a segment path with a line feed in it takes two
    lines of the manifest, neither of which is an entry for the segment. *)
Lemma line_feed_in_path_breaks_manifest :
  let plan := ["a" +:+ newline +:+ "b.mp3"] in
  plan ≠ []
  ∧ lines (concatListContent plan) = ["file 'a"; "b.mp3'"]
  ∧ length (lines (concatListContent plan)) ≠ length plan
  ∧ lines (concatListContent plan) ≠ concat_entry <$> plan.
Proof. vm_compute. repeat split; discriminate. Qed.

(** C5, amended: for a non-empty plan whose paths contain no line break,
    the manifest is written with one line per segment, in plan order, each
    [file '<path>'] with every single quote of the path replaced by
    ['\''], and the demuxer's quoting rules read each line back as the
    segment's path. *)
Theorem manifest_lists_plan `{Host} (plan : list string)
    (concatListPath outputPath : string) (fs : FS) :
  plan ≠ [] →
  Forall (λ file, no_line_break file = true) plan →
  ∃ content rest,
    events (execute plan concatListPath outputPath fs)
      = WriteFile concatListPath content :: rest
    ∧ lines content = (λ file, "file '" +:+ escape_quotes file +:+ "'") <$> plan
    ∧ file_directive <$> lines content = Some <$> plan.
Proof.
  intros Hne Hall.
  destruct (execute_writes_manifest plan concatListPath outputPath fs Hne) as [rest Hrest].
  exists (concatListContent plan), rest. split; [done|].
  assert (lines (concatListContent plan) = concat_entry <$> plan) as Hlines.
  { unfold concatListContent. apply lines_concat.
    - by destruct plan.
    - apply Forall_fmap. eapply Forall_impl; [exact Hall|].
      intros file. apply no_line_break_concat_entry. }
  split; [exact Hlines|].
  rewrite Hlines, <- list_fmap_compose. apply list_fmap_ext.
  intros i file _. apply file_directive_concat_entry.
Qed.

(** ** What a run can do

    Every event of a computation satisfies [P] when the events of its parts
    do. *)

Lemma Forall_events_bind {A B : Type} (P : Event → Prop) (m : M A) (k : A → M B)
    (fs : FS) :
  Forall P (events (m fs)) →
  (∀ a fs', Forall P (events (k a fs'))) →
  Forall P (events ((x ← m; k x) fs)).
Proof.
  intros Hm Hk. unfold bind, events in *.
  destruct (m fs) as [[[a|e] fs1] ev1]; [|done].
  specialize (Hk a fs1). destruct (k a fs1) as [[r fs2] ev2].
  simpl in *. by apply Forall_app.
Qed.

Lemma Forall_events_try_catch {A : Type} (P : Event → Prop) (body : M A)
    (handler : Error → M A) (fs : FS) :
  Forall P (events (body fs)) →
  (∀ e fs', Forall P (events (handler e fs'))) →
  Forall P (events (try_catch body handler fs)).
Proof.
  intros Hm Hk. unfold try_catch, events in *.
  destruct (body fs) as [[[a|e] fs1] ev1]; [done|].
  specialize (Hk e fs1). destruct (handler e fs1) as [[r fs2] ev2].
  simpl in *. by apply Forall_app.
Qed.

Lemma Forall_events_try_finally {A : Type} (P : Event → Prop) (body : M A)
    (final : M unit) (fs : FS) :
  Forall P (events (body fs)) →
  (∀ fs', Forall P (events (final fs'))) →
  Forall P (events (try_finally body final fs)).
Proof.
  intros Hm Hk. unfold try_finally, events in *.
  destruct (body fs) as [[r fs1] ev1].
  specialize (Hk fs1). destruct (final fs1) as [[[[]|e] fs2] ev2];
    simpl in *; by apply Forall_app.
Qed.

Section Events.
Context `{Host}.
Variable P : Event → Prop.
Hypothesis P_Log : ∀ l m, P (Log l m).
Hypothesis P_Which : P Which.
Hypothesis P_Silence : ∀ ffmpegPath seconds out,
  P (Silence (ffmpegPath +:+ " -f lavfi -i anullsrc=r=44100:cl=stereo -t "
                +:+ number_toString seconds
                +:+ " -c:a libmp3lame -b:a 128k -y "
                +:+ double_quote +:+ out +:+ double_quote)).
Hypothesis P_WriteFile : ∀ p content, P (WriteFile p content).
Hypothesis P_Concat : ∀ listPath out, P (Concat (concat_command listPath out)).
Hypothesis P_Probe : ∀ p, P (Probe p).
Hypothesis P_Rm : ∀ p, P (Rm p).

Lemma Forall_events_log (l : Level) (m : Message) (fs : FS) :
  Forall P (events (log l m fs)).
Proof. repeat constructor. apply P_Log. Qed.

Lemma Forall_events_ret {A : Type} (a : A) (fs : FS) : Forall P (events (ret a fs)).
Proof. constructor. Qed.

Lemma Forall_events_throw {A : Type} (e : Error) (fs : FS) :
  Forall P (events (throw (A:=A) e fs)).
Proof. constructor. Qed.

Lemma Forall_events_existsSync (p : string) (fs : FS) :
  Forall P (events (existsSync p fs)).
Proof. constructor. Qed.

Lemma Forall_events_generateSilence (seconds : JS.number) (out : string) (fs : FS) :
  Forall P (events (generateSilence seconds out fs)).
Proof.
  unfold generateSilence.
  apply Forall_events_bind; [apply Forall_events_log | intros _ fs1].
  apply Forall_events_try_catch.
  - apply Forall_events_bind.
    + apply Forall_events_try_catch.
      * apply Forall_events_bind; [|intros; apply Forall_events_ret].
        unfold which_ffmpeg, events. destruct (execSync _ fs1). by repeat constructor.
      * intros; apply Forall_events_ret.
    + intros ffmpegPath fs2. apply Forall_events_bind.
      * unfold exec_silence, events. destruct (execSync _ fs2). by repeat constructor.
      * intros _ fs3. apply Forall_events_bind; [apply Forall_events_existsSync|].
        intros [] fs4; [apply Forall_events_log | apply Forall_events_throw].
  - intros e fs2.
    apply Forall_events_bind; [apply Forall_events_log | intros; apply Forall_events_throw].
Qed.

Lemma Forall_events_plan_step (tempDir : string) (i : nat) (step : AudioSequenceStep)
    (files : list string) (fs : FS) :
  Forall P (events (plan_step tempDir i step files fs)).
Proof.
  unfold plan_step. destruct (JS.truthy_opt _).
  - destruct (audio_file_name_and_path step); [|apply Forall_events_ret].
    apply Forall_events_bind; [apply Forall_events_log | intros; apply Forall_events_ret].
  - destruct (pause_duration step) as [seconds|]; [|apply Forall_events_ret].
    destruct (JS.gt_zero seconds); [|apply Forall_events_ret].
    apply Forall_events_bind; [apply Forall_events_generateSilence|].
    intros; apply Forall_events_ret.
Qed.

Lemma Forall_events_plan_loop (tempDir : string) (i : nat) (steps : list AudioSequenceStep)
    (files : list string) (fs : FS) :
  Forall P (events (plan_loop tempDir i steps files fs)).
Proof.
  revert i files fs. induction steps as [|step steps IH]; intros i files fs; cbn [plan_loop].
  - apply Forall_events_ret.
  - apply Forall_events_bind; [apply Forall_events_plan_step | intros; apply IH].
Qed.

Lemma Forall_events_execute (files : list string) (listPath out : string) (fs : FS) :
  Forall P (events (execute files listPath out fs)).
Proof.
  unfold execute. destruct (length files =? 0)%nat; [apply Forall_events_throw|].
  apply Forall_events_bind.
  { unfold writeFileSync, events. destruct (fs_write _ _ fs); by repeat constructor. }
  intros _ fs1. apply Forall_events_bind; [apply Forall_events_log | intros _ fs2].
  apply Forall_events_bind.
  { unfold concatenate. apply Forall_events_bind; [apply Forall_events_log | intros _ fs3].
    unfold events. destruct (ffmpeg_run _ fs3) as [[msg|] fs4]; by repeat constructor. }
  intros _ fs3. apply Forall_events_bind.
  { unfold getAudioDuration. destruct (ffprobe out fs3) as [duration|e].
    - apply Forall_events_bind; [by repeat constructor | intros; apply Forall_events_ret].
    - apply Forall_events_bind; [by repeat constructor | intros _ fs4].
      apply Forall_events_bind; [apply Forall_events_log | intros; apply Forall_events_throw]. }
  intros [seconds|text] fs4; [|apply Forall_events_throw].
  apply Forall_events_bind; [apply Forall_events_log | intros; apply Forall_events_ret].
Qed.

Lemma Forall_events_cleanup (tempDir : string) (fs : FS) :
  Forall P (events (cleanup tempDir fs)).
Proof.
  rewrite cleanup_run. destruct (fs_exists fs tempDir); by repeat constructor.
Qed.

Lemma Forall_events_guarded (steps : list AudioSequenceStep)
    (tempDir out : string) (fs : FS) :
  Forall P (events (guarded steps tempDir out fs)).
Proof.
  apply Forall_events_try_finally; [|apply Forall_events_cleanup].
  apply Forall_events_bind; [apply Forall_events_plan_loop|].
  intros; apply Forall_events_execute.
Qed.

End Events.

Section Outcomes.
Context `{Host}.


Lemma bind_Ok_inv {A B : Type} (m : M A) (k : A → M B) (fs : FS) (b : B) :
  outcome ((x ← m; k x) fs) = Ok b →
  ∃ a fs1 ev1, m fs = (Ok a, fs1, ev1) ∧ outcome (k a fs1) = Ok b.
Proof.
  unfold bind, outcome. destruct (m fs) as [[[a|e] fs1] ev1]; [|done].
  intros Hk. exists a, fs1, ev1. split; [done|].
  by destruct (k a fs1) as [[??]?].
Qed.


End Outcomes.


(** C7 as stated fails: a run with nothing to process, which writes no
    artifact at all, still creates the scratch directory, before it looks
    at any step. *)
Lemma scratch_dir_created_without_need :
  let evs := events (combineAudioFiles (H := demo_host) [] "/out/o.mp3" "/res" ∅) in
  evs = [Log info (StartingAudioProcessing 0);
         Mkdir "/res/temporary_deletable";
         Log info (CreatedTemporaryDirectory "/res/temporary_deletable");
         Log info CleaningUp;
         Rm "/res/temporary_deletable";
         Log info (DeletedTemporaryDirectory "/res/temporary_deletable")]
  ∧ Forall (λ e, is_artifact e = false) evs
  ∧ creates (scratch_dir (H := demo_host) "/res") evs.
Proof.
  vm_compute. split; [reflexivity|]. split; [repeat constructor | auto].
Qed.

(** C7, amended: the scratch directory is created eagerly.  When it does
    not exist at the call, creating it is the first thing the call does
    after its opening log line, before any step is looked at and whatever
    the plan turns out to need; when it exists it is reused; it is never
    created later in the run. *)
Theorem scratch_dir_created_first `{Host} (steps : list AudioSequenceStep)
    (outputPath projectResourcesPath : string) (fs : FS) :
  let tempDir := scratch_dir projectResourcesPath in
  ∃ rest,
    events (combineAudioFiles steps outputPath projectResourcesPath fs)
    = Log info (StartingAudioProcessing (length steps))
        :: (if fs_exists fs tempDir then []
            else [Mkdir tempDir; Log info (CreatedTemporaryDirectory tempDir)])
        ++ rest
    ∧ Forall (λ e, ∀ dir, e ≠ Mkdir dir) rest.
Proof.
  cbv zeta. rewrite events_combineAudioFiles. cbv zeta.
  eexists. split; [reflexivity|].
  by apply Forall_events_guarded.
Qed.

(** ** [parseFloat] *)

Lemma is_digit_cases (c : ascii) :
  JS.is_digit c = true →
  In c ["0"; "1"; "2"; "3"; "4"; "5"; "6"; "7"; "8"; "9"]%char.
Proof.
  destruct c as [[] [] [] [] [] [] [] []]; vm_compute; intros Hd;
    try discriminate Hd; tauto.
Qed.

(** A digit is no white space, no sign, no point and no letter. *)
Lemma digit_is_plain (c : ascii) :
  JS.is_digit c = true →
  JS.is_whitespace c = false ∧ Ascii.eqb c "-" = false ∧ Ascii.eqb c "+" = false
  ∧ Ascii.eqb c "." = false ∧ Ascii.eqb c "I" = false.
Proof.
  intros Hd. apply is_digit_cases in Hd. simpl in Hd.
  repeat destruct Hd as [<-|Hd]; try done; by repeat split.
Qed.

Lemma trimStart_split (s : string) :
  ∃ ws, s = ws +:+ JS.trimStart s ∧ all_chars JS.is_whitespace ws = true.
Proof.
  induction s as [|c s (ws & Hs & Hws)]; [by exists ""|]. simpl.
  destruct (JS.is_whitespace c) eqn:Hc; [|by exists ""].
  exists (String c ws). rewrite append_cons, <- Hs. simpl. by rewrite Hc, Hws.
Qed.

Lemma trimStart_app (ws t : string) :
  all_chars JS.is_whitespace ws = true → JS.trimStart (ws +:+ t) = JS.trimStart t.
Proof.
  induction ws as [|c ws IH]; [done|]. simpl. intros [Hc Hws]%andb_true_iff.
  rewrite ?append_cons. simpl. by rewrite Hc, IH.
Qed.

Lemma trimStart_head (c : ascii) (r : string) :
  JS.is_whitespace c = false → JS.trimStart (String c r) = String c r.
Proof. intros Hc. simpl. by rewrite Hc. Qed.

Lemma trimEnd_head (c : ascii) (r : string) :
  JS.is_whitespace c = false → JS.truthy (JS.trimEnd (String c r)) = true.
Proof. intros Hc. simpl. destruct (JS.trimEnd r); [by rewrite Hc | done]. Qed.

Lemma prefix_Infinity (s rest : string) :
  String.prefix "Infinity" s = true → String.prefix "Infinity" (s +:+ rest) = true.
Proof.
  rewrite !prefix_spec. intros [r ->]. exists (r +:+ rest). by rewrite append_assoc.
Qed.

(** [starts_numeric] decides that a string begins as [numeric_start] says. *)
Lemma starts_numeric_spec (body : string) :
  starts_numeric body = true
  ↔ ∃ core rest, body = core +:+ rest ∧ numeric_start core.
Proof.
  unfold starts_numeric, numeric_start. rewrite orb_true_iff, prefix_spec. split.
  - intros [[rest ->] | Hhead].
    + exists "Infinity", rest. auto.
    + destruct body as [|c r]; [done|].
      apply orb_true_iff in Hhead as [Hc | [Hdot Hd]%andb_true_iff].
      * exists (String c ""), r. split; [done|]. right. left. eauto.
      * destruct r as [|d r]; [done|]. apply Ascii.eqb_eq in Hdot as ->.
        exists (String "." (String d "")), r. split; [done|]. right. right. eauto.
  - intros (core & rest & -> & [-> | [ (d & Hd & ->) | (d & Hd & ->) ] ]).
    + left. by exists rest.
    + right. rewrite append_cons. by rewrite Hd.
    + right. rewrite !append_cons. rewrite Hd. by rewrite orb_true_r.
Qed.

Lemma span_digits_head (c : ascii) (r : string) :
  JS.is_digit c = false → JS.span_digits (String c r) = ("", String c r).
Proof. intros Hc. simpl. by rewrite Hc. Qed.

(** [parse_unsigned] finds a literal exactly when the string starts one. *)
Lemma parse_unsigned_starts (body : string) :
  JS.parse_unsigned body ≠ None ↔ starts_numeric body = true.
Proof.
  unfold JS.parse_unsigned, starts_numeric.
  destruct (String.prefix "Infinity" body); [done|]. simpl.
  destruct body as [|c r]; [done|].
  destruct (JS.is_digit c) eqn:Hc.
  - simpl. rewrite Hc. destruct (JS.span_digits r) as [ds rest].
    destruct (JS.parse_fraction rest) as [fp r2]. by rewrite append_cons.
  - rewrite (span_digits_head _ _ Hc). unfold JS.parse_fraction. simpl.
    destruct (Ascii.eqb c "."); simpl; [|done].
    destruct r as [|d r]; [done|]. simpl.
    destruct (JS.is_digit d); [|done].
    destruct (JS.span_digits r) as [ds rest]. by rewrite append_empty_l.
Qed.

Lemma to_double_not_NaN (q : Q) : JS.to_double q ≠ JS.NaN.
Proof. unfold JS.to_double. by repeat case_match. Qed.

Lemma parseFloat_NaN (s : string) :
  JS.parseFloat s = JS.NaN
  ↔ JS.parse_unsigned (JS.take_sign (JS.trimStart s)).2 = None.
Proof.
  unfold JS.parseFloat. destruct (JS.take_sign _) as [negative body]. simpl.
  destruct (JS.parse_unsigned body) as [ [q | ] | ]; [ | done | done].
  split; [|done]. intros Hnan. by apply to_double_not_NaN in Hnan.
Qed.

(** What follows the white space when something numeric does. *)
Lemma take_sign_numeric (sign body : string) :
  sign = "" ∨ sign = "+" ∨ sign = "-" →
  starts_numeric body = true →
  (JS.take_sign (sign +:+ body)).2 = body
  ∧ ∃ c r, sign +:+ body = String c r ∧ JS.is_whitespace c = false.
Proof.
  intros Hsign Hbody. destruct Hsign as [-> | [-> | ->] ].
  2,3: split; [done | by eexists _, _].
  rewrite append_empty_l. unfold starts_numeric in Hbody.
  apply orb_true_iff in Hbody as [[r ->]%prefix_spec | Hhead].
  { split; [done | by eexists _, _]. }
  destruct body as [|c r]; [done|].
  apply orb_true_iff in Hhead as [Hc | [Hdot _]%andb_true_iff].
  - destruct (digit_is_plain c Hc) as (Hws & Hminus & Hplus & _).
    split; [|by eexists _, _]. simpl. by rewrite Hminus, Hplus.
  - apply Ascii.eqb_eq in Hdot as ->. split; [done | by eexists _, _].
Qed.

Lemma starts_numeric_app (core rest : string) :
  numeric_start core → starts_numeric (core +:+ rest) = true.
Proof. intros Hcore. apply starts_numeric_spec. eauto. Qed.

(** [parseFloat] yields a number exactly for the strings that begin with a
    numeric prefix. *)
Lemma parseFloat_number (s : string) :
  JS.parseFloat s ≠ JS.NaN ↔ has_numeric_prefix s.
Proof.
  rewrite parseFloat_NaN. split.
  - intros Hparse. apply parse_unsigned_starts, starts_numeric_spec in Hparse
      as (core & rest & Hbody & Hcore).
    destruct (trimStart_split s) as (ws & Hs & Hws).
    exists ws. unfold JS.take_sign in Hbody.
    destruct (JS.trimStart s) as [|c r] eqn:Ht.
    + exists "", core, rest. simpl in Hbody. rewrite <- Hbody.
      split; [exact Hs | auto 6].
    + destruct (Ascii.eqb_spec c "-") as [->|_];
        [|destruct (Ascii.eqb_spec c "+") as [->|_]]; simpl in Hbody.
      * exists "-", core, rest. rewrite <- Hbody. split; [exact Hs | auto 6].
      * exists "+", core, rest. rewrite <- Hbody. split; [exact Hs | auto 6].
      * exists "", core, rest. rewrite <- Hbody. split; [exact Hs | auto 6].
  - intros (ws & sign & core & rest & -> & Hws & Hsign & Hcore).
    rewrite (trimStart_app _ _ Hws).
    destruct (take_sign_numeric sign (core +:+ rest) Hsign (starts_numeric_app _ _ Hcore))
      as (Hbody & c & r & Hhead & Hc).
    rewrite Hhead, (trimStart_head _ _ Hc), <- Hhead, Hbody.
    by apply parse_unsigned_starts, starts_numeric_app.
Qed.

(** A string with a numeric prefix is not blank. *)
Lemma numeric_prefix_present (s : string) :
  has_numeric_prefix s → JS.truthy s && JS.truthy (JS.trim s) = true.
Proof.
  intros (ws & sign & core & rest & -> & Hws & Hsign & Hcore).
  destruct (take_sign_numeric sign (core +:+ rest) Hsign (starts_numeric_app _ _ Hcore))
    as (_ & c & r & Hhead & Hc).
  unfold JS.trim. rewrite (trimStart_app _ _ Hws), Hhead, (trimStart_head _ _ Hc).
  rewrite (trimEnd_head _ _ Hc), andb_true_r.
  by destruct ws.
Qed.

Lemma span_digits_app (ds rest : string) :
  all_chars JS.is_digit ds = true →
  ends_number rest = true →
  JS.span_digits (ds +:+ rest) = (ds, rest).
Proof.
  intros Hds Hrest. induction ds as [|c ds IH].
  - rewrite append_empty_l. destruct rest as [|x rest]; [done|].
    simpl in Hrest. apply negb_true_iff in Hrest.
    apply span_digits_head. by repeat apply orb_false_elim in Hrest as [Hrest _].
  - simpl in Hds. apply andb_true_iff in Hds as [Hc Hds].
    rewrite append_cons. simpl. by rewrite Hc, (IH Hds).
Qed.

(** Digits followed by something that ends the number parse to their
    decimal value. *)
Lemma parseFloat_digits (ds rest : string) :
  ds ≠ "" →
  all_chars JS.is_digit ds = true →
  ends_number rest = true →
  JS.parseFloat (ds +:+ rest) = JS.to_double (inject_Z (JS.digits_value 0 ds)).
Proof.
  intros Hne Hds Hrest. destruct ds as [|c ds]; [done|].
  pose proof Hds as [Hc _]%andb_true_iff.
  destruct (digit_is_plain c Hc) as (Hws & Hminus & Hplus & Hdot & HI).
  unfold JS.parseFloat. rewrite append_cons, (trimStart_head _ _ Hws).
  unfold JS.take_sign. rewrite Hminus, Hplus. unfold JS.parse_unsigned.
  assert (String.prefix "Infinity" (String c (ds +:+ rest)) = false) as ->.
  { destruct (String.prefix _ _) eqn:E; [|done].
    apply prefix_spec in E as [r Hr]. rewrite append_cons in Hr.
    injection Hr as -> _. discriminate HI. }
  rewrite <- append_cons, (span_digits_app _ _ Hds Hrest).
  assert (JS.parse_fraction rest = ("", rest) ∧ JS.parse_exponent rest = 0) as [-> ->].
  { destruct rest as [|x rest]; [done|]. simpl in Hrest. apply negb_true_iff in Hrest.
    apply orb_false_elim in Hrest as [Hrest HE].
    apply orb_false_elim in Hrest as [Hrest He].
    apply orb_false_elim in Hrest as [_ Hp].
    unfold JS.parse_fraction, JS.parse_exponent. by rewrite Hp, He, HE. }
  rewrite append_empty_r. cbn [String.length Z.of_nat Z.sub Z.opp Z.add].
  unfold JS.decimal. cbn [Z.leb Z.compare Z.pow Z.pow_pos Pos.iter].
  by rewrite Z.mul_1_r.
Qed.

(** ** The CSV reader *)

(** The handler pushes [step_of_row] and logs [row_warnings]; it never
    throws and never touches the disk. *)
Lemma on_data_run (row : Row) (results : list AudioSequenceStep) (fs : FS) :
  on_data row results fs = (Ok (results ++ [step_of_row row]), fs, row_warnings row).
Proof.
  unfold on_data, step_of_row, row_warnings, populated.
  destruct row as [i audio pause]. simpl.
  assert (match audio with
          | Some a => if JS.truthy a && JS.truthy (JS.trim a) then Some (JS.trim a) else None
          | None => None
          end
          = if match audio with
               | Some s => JS.truthy s && JS.truthy (JS.trim s)
               | None => false
               end
            then JS.trim <$> audio else None) as ->.
  { destruct audio as [a|]; [|done]. by destruct (_ && _). }
  destruct pause as [raw|]; [|done].
  destruct (JS.truthy raw && JS.truthy (JS.trim raw)); [|done]. simpl.
  by destruct (JS.isNaN (JS.parseFloat raw)).
Qed.

Lemma on_rows_run (rows : list Row) (results : list AudioSequenceStep) (fs : FS) :
  on_rows rows results fs
  = (Ok (results ++ (step_of_row <$> rows)), fs, rows ≫= row_warnings).
Proof.
  revert results. induction rows as [|row rows IH]; intros results; simpl.
  - unfold ret. by rewrite app_nil_r.
  - rewrite (bind_Ok _ _ _ _ _ _ (on_data_run row results fs)), IH.
    unfold outcome, disk, events. simpl. by rewrite <- app_assoc.
Qed.

Lemma parseAudioSequenceCSV_run `{Host} (csvPath : string) (rows : list Row) (fs : FS) :
  fs_exists fs csvPath = true →
  csv_records csvPath fs = (rows, None) →
  parseAudioSequenceCSV csvPath fs
  = (Ok (step_of_row <$> rows), fs,
     Log info (ParsingCsv csvPath)
       :: (rows ≫= row_warnings)
       ++ [Log info (ParsedSteps (length rows))]).
Proof.
  intros Hfound Hrows. unfold parseAudioSequenceCSV.
  unfold bind at 1, log at 1, emit. unfold bind at 1, existsSync at 1.
  rewrite Hfound. cbn [negb]. rewrite Hrows.
  rewrite (bind_Ok _ _ _ _ _ _ (on_rows_run rows [] fs)).
  run. by rewrite length_fmap.
Qed.

Lemma isNaN_spec (n : JS.number) : JS.isNaN n = true ↔ n = JS.NaN.
Proof. by destruct n. Qed.

Lemma gt_zero_not_NaN (n : JS.number) : JS.gt_zero n = true → n ≠ JS.NaN.
Proof. by destruct n. Qed.

Lemma has_clip_step_of_row (row : Row) :
  has_clip (step_of_row row) = populated (row_audio_file_name_and_path row).
Proof.
  unfold has_clip, step_of_row, populated. simpl.
  destruct (row_audio_file_name_and_path row) as [a|]; [|done]. simpl.
  destruct (JS.truthy a && JS.truthy (JS.trim a)) eqn:E; [|done].
  simpl. by apply andb_true_iff in E as [_ ->].
Qed.



(** C9: a row with both a clip path and a positive pause becomes a step
    that keeps both, and for any step with both the planner appends the
    clip alone: it logs the clip, renders no silence and throws nothing. *)
Theorem clip_wins_over_pause `{Host} (row : Row) (a raw : string)
    (results : list AudioSequenceStep) (fs : FS) :
  row_audio_file_name_and_path row = Some a →
  populated (Some a) = true →
  row_pause_duration row = Some raw →
  JS.gt_zero (JS.parseFloat raw) = true →
  let step := {| id := row_id row;
                 audio_file_name_and_path := Some (JS.trim a);
                 pause_duration := Some (JS.parseFloat raw) |} in
  on_data row results fs = (Ok (results ++ [step]), fs, [])
  ∧ has_clip step = true ∧ has_pause step = true
  ∧ ∀ both : AudioSequenceStep,
      has_clip both = true → has_pause both = true →
      ∃ file, audio_file_name_and_path both = Some file
        ∧ ∀ tempDir i files fs',
            plan_step tempDir i both files fs'
            = (Ok (files ++ [file]), fs', [Log info (AddingAudioFile (id both) file)]).
Proof.
  intros Haudio Hpop Hraw Hpos step.
  pose proof (gt_zero_not_NaN _ Hpos) as Hnum.
  pose proof (numeric_prefix_present raw (proj1 (parseFloat_number raw) Hnum)) as Hpresent.
  assert (JS.isNaN (JS.parseFloat raw) = false) as Hnan.
  { destruct (JS.isNaN _) eqn:E; [by apply isNaN_spec in E | done]. }
  split.
  { rewrite on_data_run. unfold step_of_row, row_warnings.
    rewrite Haudio, Hraw, Hpop. unfold populated. by rewrite Hpresent, Hnan. }
  split. { unfold has_clip. simpl. unfold populated in Hpop.
           by apply andb_true_iff in Hpop as [_ ->]. }
  split; [done|].
  intros both Hclip _.
  destruct (plan_step_clip "" 0 both [] fs Hclip) as (file & Hfile & _).
  exists file. split; [done|]. intros tempDir i files fs'.
  destruct (plan_step_clip tempDir i both files fs' Hclip) as (file' & Hfile' & Hrun).
  congruence.
Qed.

(** C10: the handler takes the numeric prefix of a pause_duration string
    for the pause and overlooks what follows it: a string that begins
    with a numeric prefix is parsed, kept and not warned about; a run of
    digits followed by other characters gives the value of the digits;
    the field ends up cleared exactly when the string has no numeric
    prefix. *)
Theorem numeric_prefix_accepted (row : Row) (raw : string)
    (results : list AudioSequenceStep) (fs : FS) :
  row_pause_duration row = Some raw →
  ∃ step evs,
    on_data row results fs = (Ok (results ++ [step]), fs, evs)
    ∧ (has_numeric_prefix raw →
       pause_duration step = Some (JS.parseFloat raw)
       ∧ JS.parseFloat raw ≠ JS.NaN ∧ evs = [])
    ∧ (pause_duration step = None ↔ ¬ has_numeric_prefix raw)
    ∧ (∀ digits rest,
         raw = digits +:+ rest → digits ≠ "" →
         all_chars JS.is_digit digits = true → ends_number rest = true →
         pause_duration step
         = Some (JS.to_double (inject_Z (JS.digits_value 0 digits)))).
Proof.
  intros Hraw. exists (step_of_row row), (row_warnings row).
  split; [apply on_data_run|].
  assert (has_numeric_prefix raw →
          pause_duration (step_of_row row) = Some (JS.parseFloat raw)
          ∧ JS.parseFloat raw ≠ JS.NaN ∧ row_warnings row = []) as Haccept.
  { intros Hprefix. pose proof (proj2 (parseFloat_number raw) Hprefix) as Hnum.
    assert (JS.isNaN (JS.parseFloat raw) = false) as Hnan.
    { destruct (JS.isNaN _) eqn:E; [by apply isNaN_spec in E | done]. }
    unfold step_of_row, row_warnings. cbn [pause_duration]. rewrite Hraw.
    unfold populated. by rewrite (numeric_prefix_present raw Hprefix), Hnan. }
  split; [exact Haccept|]. split.
  - split.
    + intros Hnone Hprefix. destruct (Haccept Hprefix) as (Hsome & _). congruence.
    + intros Hno. unfold step_of_row. cbn [pause_duration]. rewrite Hraw.
      destruct (JS.isNaN (JS.parseFloat raw)) eqn:E; [by rewrite andb_false_r|].
      exfalso. apply Hno, parseFloat_number. intros Hnan. by rewrite Hnan in E.
  - intros digits rest -> Hne Hdigits Hend.
    assert (JS.parseFloat (digits +:+ rest)
            = JS.to_double (inject_Z (JS.digits_value 0 digits))) as Hvalue
      by by apply parseFloat_digits.
    assert (has_numeric_prefix (digits +:+ rest)) as Hprefix.
    { apply parseFloat_number. rewrite Hvalue. apply to_double_not_NaN. }
    destruct (Haccept Hprefix) as (-> & _). by rewrite Hvalue.
Qed.

(** ** The properties on concrete runs *)

(** Scenario B: the one step is a cleared pause, and the run throws. *)
Lemma empty_plan_is_an_error_witness :
  scenario_B = [{| id := "1"; audio_file_name_and_path := None; pause_duration := None |}]
  ∧ outcome (combineAudioFiles (H := demo_host) scenario_B "/out/o.mp3" "/res" ∅)
    = Throw (mkError "No audio files or pauses to process")
  ∧ events (combineAudioFiles (H := demo_host) scenario_B "/out/o.mp3" "/res" ∅)
    = [Log info (StartingAudioProcessing 1);
       Mkdir "/res/temporary_deletable";
       Log info (CreatedTemporaryDirectory "/res/temporary_deletable");
       Log info CleaningUp;
       Rm "/res/temporary_deletable";
       Log info (DeletedTemporaryDirectory "/res/temporary_deletable")].
Proof.
  split; [reflexivity|].
  rewrite (empty_plan_is_an_error (H := demo_host) scenario_B "/out/o.mp3" "/res" ∅).
  - split; reflexivity.
  - repeat constructor.
Defined.

(** Two clips, one with a quote in its name, pass through as they are. *)
Lemma clip_steps_pass_through_witness :
  ∃ plan,
    outcome (plan_loop (H := demo_host) "/res/temporary_deletable" 0
               [clip "1" "a.mp3"; clip "2" "it's.mp3"] [] ∅) = Ok plan
    ∧ Some <$> plan = [Some "a.mp3"; Some "it's.mp3"]
    ∧ disk (plan_loop (H := demo_host) "/res/temporary_deletable" 0
              [clip "1" "a.mp3"; clip "2" "it's.mp3"] [] ∅) = ∅.
Proof.
  apply (clip_steps_pass_through (H := demo_host) "/res/temporary_deletable"
           [clip "1" "a.mp3"; clip "2" "it's.mp3"] ∅).
  repeat constructor.
Defined.

(** A pause of zero seconds between a clip and a pause of two seconds. *)
Lemma non_positive_pause_skipped_witness :
  plan_step (H := demo_host) "/res/temporary_deletable" 1 (pause "2" 0) ["a.mp3"] ∅
  = (Ok ["a.mp3"], ∅, [])
  ∧ plan_loop (H := demo_host) "/res/temporary_deletable" 0
      ([clip "1" "a.mp3"] ++ pause "2" 0 :: [pause "3" 2]) [] ∅
    = (files' ← plan_loop (H := demo_host) "/res/temporary_deletable" 0
                  [clip "1" "a.mp3"] [];
       plan_loop (H := demo_host) "/res/temporary_deletable" 2 [pause "3" 2] files') ∅.
Proof.
  apply (non_positive_pause_skipped (H := demo_host) "/res/temporary_deletable"
           [clip "1" "a.mp3"] [pause "3" 2] (pause "2" 0) ["a.mp3"] ∅);
    reflexivity.
Defined.

(** The manifest of two clips, one with a quote in its name. *)
Lemma manifest_lists_plan_witness :
  ∃ content rest,
    events (execute (H := demo_host) ["a.mp3"; "it's.mp3"]
              "/res/temporary_deletable/concat-list.txt" "/out/o.mp3" ∅)
      = WriteFile "/res/temporary_deletable/concat-list.txt" content :: rest
    ∧ lines content = ["file 'a.mp3'"; "file 'it'\''s.mp3'"]
    ∧ file_directive <$> lines content = [Some "a.mp3"; Some "it's.mp3"].
Proof.
  apply (manifest_lists_plan (H := demo_host) ["a.mp3"; "it's.mp3"]
           "/res/temporary_deletable/concat-list.txt" "/out/o.mp3" ∅).
  - discriminate.
  - repeat constructor.
Defined.


(** A row with a clip and three seconds of pause. *)
Lemma clip_wins_over_pause_witness :
  on_data row_clip_and_pause [] ∅
  = (Ok [{| id := "4"; audio_file_name_and_path := Some "a.mp3";
            pause_duration := Some (JS.Fin 3) |}], ∅, [])
  ∧ plan_step (H := demo_host) "/res/temporary_deletable" 0
      {| id := "4"; audio_file_name_and_path := Some "a.mp3";
         pause_duration := Some (JS.Fin 3) |} [] ∅
    = (Ok ["a.mp3"], ∅, [Log info (AddingAudioFile "4" "a.mp3")]).
Proof.
  destruct (clip_wins_over_pause (H := demo_host) row_clip_and_pause " a.mp3 " "3" [] ∅)
    as (Hparse & Hclip & Hpause & Hplan);
    [reflexivity | reflexivity | reflexivity | vm_compute; reflexivity |].
  split; [exact Hparse|].
  destruct (Hplan _ Hclip Hpause) as (file & Hfile & Hrun).
  injection Hfile as <-. apply Hrun.
Defined.

(** The string 5abc gives a pause of five seconds. *)
Lemma numeric_prefix_accepted_witness :
  ∃ step,
    on_data row_5abc [] ∅ = (Ok [step], ∅, [])
    ∧ pause_duration step = Some (JS.Fin 5).
Proof.
  destruct (numeric_prefix_accepted row_5abc "5abc" [] ∅ eq_refl)
    as (step & evs & Hrun & Haccept & _ & Hdigits).
  assert (has_numeric_prefix "5abc") as Hprefix.
  { exists "", "", "5", "abc". repeat split; auto.
    right. left. by exists "5"%char. }
  destruct (Haccept Hprefix) as (_ & _ & ->).
  exists step. split; [exact Hrun|].
  rewrite (Hdigits "5" "abc"); [vm_compute | | | |]; reflexivity || discriminate.
Defined.

(** Scenario A runs to the end: the pause becomes [silence-1.mp3], the
    manifest lists the three segments in order, and the scratch directory
    is gone again. *)
Example scenario_A_events :
  events (combineAudioFiles (H := demo_host) scenario_A "/out/o.mp3" "/res" ∅)
  = [Log info (StartingAudioProcessing 3);
     Mkdir "/res/temporary_deletable";
     Log info (CreatedTemporaryDirectory "/res/temporary_deletable");
     Log info (AddingAudioFile "1" "a.mp3");
     Log info (GeneratingSilence (JS.Fin 2) "/res/temporary_deletable/silence-1.mp3");
     Which;
     Silence ("/usr/bin/ffmpeg -f lavfi -i anullsrc=r=44100:cl=stereo -t 2"
                +:+ " -c:a libmp3lame -b:a 128k -y "
                +:+ double_quote +:+ "/res/temporary_deletable/silence-1.mp3"
                +:+ double_quote);
     Log info (SilenceGenerated "/res/temporary_deletable/silence-1.mp3");
     Log info (AddingAudioFile "3" "b.mp3");
     WriteFile "/res/temporary_deletable/concat-list.txt"
       (String.concat newline
          ["file 'a.mp3'"; "file '/res/temporary_deletable/silence-1.mp3'";
           "file 'b.mp3'"]);
     Log info (CreatedConcatList 3);
     Log info (ConcatenatingTo "/out/o.mp3");
     Concat (concat_command "/res/temporary_deletable/concat-list.txt" "/out/o.mp3");
     Log info ConcatenationCompleted;
     Probe "/out/o.mp3";
     Log info (FinalAudioDuration (JS.Fin 10));
     Log info CleaningUp;
     Rm "/res/temporary_deletable";
     Log info (DeletedTemporaryDirectory "/res/temporary_deletable")].
Proof. vm_compute. reflexivity. Qed.

Example scenario_A_result :
  outcome (combineAudioFiles (H := demo_host) scenario_A "/out/o.mp3" "/res" ∅)
  = Ok {| outputPath := "/out/o.mp3"; audioLengthSeconds := JS.Fin 10 |}.
Proof. vm_compute. reflexivity. Qed.

(** When the tool fails on the first silence the run stops there and still
    cleans up. *)
Example scenario_A_tool_failure :
  outcome (combineAudioFiles (H := failing_host) scenario_A "/out/o.mp3" "/res" ∅)
  = Throw (mkError "spawn failed")
  ∧ fs_exists (disk (combineAudioFiles (H := failing_host) scenario_A "/out/o.mp3" "/res" ∅))
      "/res/temporary_deletable" = false.
Proof. split; vm_compute; reflexivity. Qed.

(** When the probe has no duration the output file is written, but the
    call throws on formatting the duration, and still cleans up. *)
Example scenario_A_no_duration :
  let run := combineAudioFiles (H := no_duration_host) scenario_A "/out/o.mp3" "/res"
               (fs_mkdir "/out" ∅) in
  outcome run = Throw (mkError "audioLengthSeconds.toFixed is not a function")
  ∧ fs_exists (disk run) "/out/o.mp3" = true
  ∧ fs_exists (disk run) "/res/temporary_deletable" = false.
Proof. cbv zeta. repeat split; by vm_compute. Qed.

(** The command line of the silence generator when [which] fails, as the
    template renders it. *)
Example silence_command_line :
  events (generateSilence (H := failing_host) (JS.Fin 2) "/x/s.mp3" ∅)
  = [Log info (GeneratingSilence (JS.Fin 2) "/x/s.mp3");
     Which;
     Silence ("ffmpeg -f lavfi -i anullsrc=r=44100:cl=stereo -t 2"
                +:+ " -c:a libmp3lame -b:a 128k -y "
                +:+ double_quote +:+ "/x/s.mp3" +:+ double_quote);
     Log error (ErrorGeneratingSilence "spawn failed")].
Proof. vm_compute. reflexivity. Qed.

Example parseFloat_5abc : JS.parseFloat "5abc" = JS.Fin 5.
Proof. vm_compute. reflexivity. Qed.

Example parseFloat_signed_fraction : JS.parseFloat "  -2.50e1x" = JS.Fin (-25).
Proof. vm_compute. reflexivity. Qed.

Example parseFloat_abc : JS.parseFloat "abc" = JS.NaN.
Proof. vm_compute. reflexivity. Qed.

Example parseFloat_point : JS.parseFloat "." = JS.NaN.
Proof. vm_compute. reflexivity. Qed.

Example parseFloat_underflow : JS.parseFloat "1e-400" = JS.Fin 0.
Proof. vm_compute. reflexivity. Qed.

Example parseFloat_overflow : JS.parseFloat "-1e400" = JS.Infinity true.
Proof. vm_compute. reflexivity. Qed.

Example parseFloat_half : JS.parseFloat ".5e" = JS.Fin (1 # 2).
Proof. vm_compute. reflexivity. Qed.

Example trim_inner_space : JS.trim "  a b  " = "a b".
Proof. vm_compute. reflexivity. Qed.

(** * Further properties of the reader and the processor *)

(** ** [trim] *)

Lemma trimEnd_idempotent (s : string) : JS.trimEnd (JS.trimEnd s) = JS.trimEnd s.
Proof.
  induction s as [|c s IH]; [done|]. simpl.
  destruct (JS.trimEnd s) as [|c' s'] eqn:E.
  - destruct (JS.is_whitespace c) eqn:Hc; [done|]. simpl. by rewrite Hc.
  - simpl. simpl in IH. by rewrite IH.
Qed.

Lemma trimStart_head_cases (s : string) :
  JS.trimStart s = "" ∨ ∃ c r, JS.trimStart s = String c r ∧ JS.is_whitespace c = false.
Proof.
  induction s as [|c s IH]; [by left|]. simpl.
  destruct (JS.is_whitespace c) eqn:Hc; [done|]. right. by exists c, s.
Qed.

Lemma trimEnd_keeps_head (c : ascii) (r : string) :
  JS.is_whitespace c = false → ∃ r', JS.trimEnd (String c r) = String c r'.
Proof.
  intros Hc. simpl. destruct (JS.trimEnd r); [rewrite Hc|]; by eexists.
Qed.

(** What [trim] returns is trimmed. *)
Lemma trim_idempotent (s : string) : JS.trim (JS.trim s) = JS.trim s.
Proof.
  unfold JS.trim. destruct (trimStart_head_cases s) as [-> | (c & r & -> & Hc)]; [done|].
  destruct (trimEnd_keeps_head c r Hc) as [r' Hr']. rewrite Hr'.
  rewrite (trimStart_head _ _ Hc), <- Hr'. apply trimEnd_idempotent.
Qed.

(** ** The reader as a whole *)

(** The steps that come out of a row are clean. *)
Lemma clean_step_of_row (row : Row) : clean_step (step_of_row row).
Proof.
  split.
  - intros file. unfold step_of_row, populated. simpl.
    destruct (row_audio_file_name_and_path row) as [a|]; [|done].
    destruct (JS.truthy a && JS.truthy (JS.trim a)) eqn:E; [|done].
    simpl. intros [= <-]. apply andb_true_iff in E as [_ E].
    split; [by destruct (JS.trim a) | apply trim_idempotent].
  - intros seconds. unfold step_of_row. cbn [pause_duration].
    destruct (row_pause_duration row) as [raw|]; [|done].
    destruct (populated (Some raw)); [|done].
    destruct (JS.isNaN (JS.parseFloat raw)) eqn:E; [done|].
    cbn [andb negb]. intros [= <-] Hnan. by rewrite Hnan in E.
Qed.

(** The reader, by cases on the file and on how the stream ends. *)
Lemma parseAudioSequenceCSV_cases `{Host} (csvPath : string) (fs : FS) :
  parseAudioSequenceCSV csvPath fs
  = if fs_exists fs csvPath then
      let rows := (csv_records csvPath fs).1 in
      match (csv_records csvPath fs).2 with
      | None =>
          (Ok (step_of_row <$> rows), fs,
           Log info (ParsingCsv csvPath)
             :: (rows ≫= row_warnings) ++ [Log info (ParsedSteps (length rows))])
      | Some msg =>
          (Throw (mkError msg), fs,
           Log info (ParsingCsv csvPath)
             :: (rows ≫= row_warnings) ++ [Log error (ErrorParsingCsv msg)])
      end
    else
      (Throw (mkError ("CSV file not found: " +:+ csvPath)), fs,
       [Log info (ParsingCsv csvPath); Log error (CsvNotFound csvPath)]).
Proof.
  destruct (fs_exists fs csvPath) eqn:Hfound.
  - destruct (csv_records csvPath fs) as [rows [msg|] ] eqn:Hrows; cbn [fst snd].
    + unfold parseAudioSequenceCSV.
      unfold bind at 1, log at 1, emit. unfold bind at 1, existsSync at 1.
      rewrite Hfound. cbn [negb]. rewrite Hrows.
      rewrite (bind_Ok _ _ _ _ _ _ (on_rows_run rows [] fs)). by run.
    + by apply parseAudioSequenceCSV_run.
  - unfold parseAudioSequenceCSV.
    unfold bind at 1, log at 1, emit. unfold bind at 1, existsSync at 1.
    rewrite Hfound. by run.
Qed.

(** X1: reading the CSV file fails in exactly two ways, a missing file
    and an error of the stream, each with its own message; no row can make
    it fail, and it never changes the disk. *)
Theorem parse_fails_only_on_file_or_stream `{Host} (csvPath : string) (fs : FS)
    (e : Error) :
  disk (parseAudioSequenceCSV csvPath fs) = fs
  ∧ (outcome (parseAudioSequenceCSV csvPath fs) = Throw e
     ↔ (fs_exists fs csvPath = false
        ∧ e = mkError ("CSV file not found: " +:+ csvPath))
       ∨ (fs_exists fs csvPath = true
          ∧ ∃ msg, (csv_records csvPath fs).2 = Some msg ∧ e = mkError msg)).
Proof.
  rewrite parseAudioSequenceCSV_cases.
  destruct (fs_exists fs csvPath); cbv zeta.
  - destruct (csv_records csvPath fs).2 as [msg|]; unfold outcome, disk; cbn [fst snd].
    + split; [done|]. split.
      * intros [= <-]. right. split; [done|]. by exists msg.
      * by intros [ [? _] | [_ (msg' & [= <-] & ->)] ].
    + split; [done|]. split; [done|].
      by intros [ [? _] | [_ (msg' & ? & _)] ].
  - unfold outcome, disk; cbn [fst snd]. split; [done|]. split.
    + intros [= <-]. by left.
    + by intros [ [_ ->] | [? _] ].
Qed.

(** X2: when the file is there and the stream ends without error, the
    reader returns one step per record, in record order and under the
    record's id, and every step is clean: its clip path, if any, is trimmed
    and not empty, and its pause, if any, is a number. *)
Theorem parse_returns_clean_steps `{Host} (csvPath : string) (rows : list Row)
    (fs : FS) :
  fs_exists fs csvPath = true →
  csv_records csvPath fs = (rows, None) →
  ∃ steps,
    outcome (parseAudioSequenceCSV csvPath fs) = Ok steps
    ∧ id <$> steps = row_id <$> rows
    ∧ Forall clean_step steps
    ∧ Forall (λ e, ∃ m, e = Log info m ∨ e = Log warn m)
        (events (parseAudioSequenceCSV csvPath fs)).
Proof.
  intros Hfound Hrows. exists (step_of_row <$> rows).
  rewrite (parseAudioSequenceCSV_run csvPath rows fs Hfound Hrows).
  split; [done|]. split.
  { rewrite <- list_fmap_compose. by apply list_fmap_ext. }
  split.
  { apply Forall_fmap, Forall_forall. intros row _. apply clean_step_of_row. }
  unfold events. cbn [snd]. constructor; [by eexists; left|].
  apply Forall_app. split; [|by repeat constructor; eexists; left].
  apply Forall_bind, Forall_forall. intros row _. unfold compose, row_warnings.
  repeat case_match; repeat constructor. eexists. by right.
Qed.

Section MoreProcessor.
Context `{Host}.

(** ** [generateSilence] *)

Lemma generateSilence_run (seconds : JS.number) (out : string) (fs : FS) :
  let ffmpegPath :=
    match (execSync "which ffmpeg" fs).1 with
    | Ok stdout => JS.trim stdout
    | Throw _ => "ffmpeg"
    end in
  let fs1 := (execSync "which ffmpeg" fs).2 in
  let cmd :=
    ffmpegPath +:+ " -f lavfi -i anullsrc=r=44100:cl=stereo -t "
      +:+ number_toString seconds
      +:+ " -c:a libmp3lame -b:a 128k -y "
      +:+ double_quote +:+ out +:+ double_quote in
  let fs2 := (execSync cmd fs1).2 in
  let started := [Log info (GeneratingSilence seconds out); Which; Silence cmd] in
  generateSilence seconds out fs
  = match (execSync cmd fs1).1 with
    | Throw e =>
        (Throw e, fs2, started ++ [Log error (ErrorGeneratingSilence (error_message e))])
    | Ok _ =>
        if fs_exists fs2 out
        then (Ok (), fs2, started ++ [Log info (SilenceGenerated out)])
        else (Throw (mkError "Output file was not created"), fs2,
              started ++ [Log error (ErrorGeneratingSilence "Output file was not created")])
    end.
Proof.
  cbv zeta. unfold generateSilence, which_ffmpeg, exec_silence, try_catch, bind, log,
    emit, existsSync, ret, throw.
  destruct (execSync "which ffmpeg" fs) as [[stdout|e] fs1]; cbn [fst snd].
  - destruct (execSync _ fs1) as [[o|e] fs2]; cbn [fst snd]; [|done].
    by destruct (fs_exists fs2 out).
  - destruct (execSync _ fs1) as [[o|e'] fs2]; cbn [fst snd]; [|done].
    by destruct (fs_exists fs2 out).
Qed.

End MoreProcessor.

(** X3: [generateSilence] returns only when the file it was asked for
    exists afterwards; when it throws, whether because the tool failed or
    because the tool left no file, the last thing it did was to log the
    error it throws. *)
Theorem silence_exists_or_error_logged `{Host} (seconds : JS.number) (out : string)
    (fs : FS) :
  let run := generateSilence seconds out fs in
  (outcome run = Ok () →
   fs_exists (disk run) out = true
   ∧ last (events run) = Some (Log info (SilenceGenerated out)))
  ∧ (∀ e, outcome run = Throw e →
     last (events run) = Some (Log error (ErrorGeneratingSilence (error_message e)))).
Proof.
  cbv zeta. rewrite generateSilence_run. cbv zeta.
  destruct (execSync _ (execSync "which ffmpeg" fs).2).1 as [o|e].
  - destruct (fs_exists _ out) eqn:E; unfold outcome, disk, events; cbn [fst snd].
    + split; [done|]. intros e' [=].
    + split; [done|]. by intros e' [= <-].
  - unfold outcome, disk, events; cbn [fst snd]. split; [done|]. by intros e' [= <-].
Qed.

(** X4: the silence generator hands one command line to [execSync] per
    call: the binary that [which ffmpeg] reports (trimmed), or plain
    [ffmpeg] when [which] fails, followed by the lavfi source anullsrc at
    44100 Hz stereo, the duration asked for, the libmp3lame encoding at
    128k and the quoted output path.  The disk after the call is the disk
    that this command leaves, run after [which]. *)
Theorem silence_command_of_call `{Host} (seconds : JS.number) (out : string)
    (fs : FS) :
  let which := execSync "which ffmpeg" fs in
  let ffmpegPath :=
    match which.1 with
    | Ok stdout => JS.trim stdout
    | Throw _ => "ffmpeg"
    end in
  let cmd :=
    ffmpegPath +:+ " -f lavfi -i anullsrc=r=44100:cl=stereo -t "
      +:+ number_toString seconds
      +:+ " -c:a libmp3lame -b:a 128k -y "
      +:+ double_quote +:+ out +:+ double_quote in
  List.filter is_silence (events (generateSilence seconds out fs)) = [Silence cmd]
  ∧ disk (generateSilence seconds out fs) = (execSync cmd which.2).2.
Proof.
  cbv zeta. rewrite generateSilence_run. cbv zeta.
  destruct (execSync _ (execSync "which ffmpeg" fs).2).1 as [o|e];
    [destruct (fs_exists _ out)|]; done.
Qed.

(** Goes through the members of a list that is written out. *)
Ltac in_cases H :=
  lazymatch type of H with
  | _ ∨ _ => destruct H as [H|H]; [try discriminate H | in_cases H]
  | False => destruct H
  | _ => idtac
  end.

Section Stages.
Context `{Host}.

(** ** The loop, the concatenation stage and the clean-up in a run *)

Lemma plan_step_Ok (tempDir : string) (i : nat) (step : AudioSequenceStep)
    (files files' : list string) (fs : FS) :
  outcome (plan_step tempDir i step files fs) = Ok files' →
  files' = files ++ match segment_of tempDir i step with
                    | Some file => [file]
                    | None => []
                    end.
Proof.
  unfold segment_of. destruct (has_clip step) eqn:Hclip.
  - destruct (plan_step_clip tempDir i step files fs Hclip) as (file & -> & ->).
    by intros [= <-].
  - destruct (has_pause step) eqn:Hpause.
    + unfold plan_step. unfold has_clip in Hclip. rewrite Hclip.
      unfold has_pause in Hpause.
      destruct (pause_duration step) as [seconds|]; [|done]. rewrite Hpause.
      intros (u & fs1 & ev1 & _ & Hret)%bind_Ok_inv. by injection Hret as <-.
    + rewrite (plan_step_skip tempDir i step files fs Hclip Hpause).
      intros [= <-]. by rewrite app_nil_r.
Qed.

Lemma plan_loop_Ok (tempDir : string) (i : nat) (steps : list AudioSequenceStep)
    (files plan : list string) (fs : FS) :
  outcome (plan_loop tempDir i steps files fs) = Ok plan →
  plan = files ++ planned tempDir i steps.
Proof.
  revert i files fs. induction steps as [|step steps IH]; intros i files fs.
  - simpl. intros [= <-]. by rewrite app_nil_r.
  - cbn [plan_loop planned].
    intros (files' & fs1 & ev1 & Hstep & Hrest)%bind_Ok_inv.
    apply IH in Hrest as ->.
    assert (outcome (plan_step tempDir i step files fs) = Ok files') as Hfiles
      by by rewrite Hstep.
    apply plan_step_Ok in Hfiles as ->.
    destruct (segment_of tempDir i step); by rewrite <- app_assoc.
Qed.

(** The guarded block, by the outcome of the loop. *)
Lemma guarded_stages (steps : list AudioSequenceStep) (tempDir out : string) (fs : FS) :
  let loop := plan_loop tempDir 0 steps [] fs in
  guarded steps tempDir out fs
  = match outcome loop with
    | Ok files =>
        let stage := execute files (path_join tempDir "concat-list.txt") out (disk loop) in
        (outcome stage, disk (cleanup tempDir (disk stage)),
         events loop ++ events stage ++ events (cleanup tempDir (disk stage)))
    | Throw e =>
        (Throw e, disk (cleanup tempDir (disk loop)),
         events loop ++ events (cleanup tempDir (disk loop)))
    end.
Proof.
  cbv zeta. unfold guarded. rewrite try_finally_cleanup.
  unfold bind, outcome, disk, events.
  destruct (plan_loop tempDir 0 steps [] fs) as [ [ [files|e] fs1] ev1]; cbn [fst snd];
    [|done].
  destruct (execute files _ out fs1) as [ [r fs2] ev2]. cbn [fst snd].
  by rewrite app_assoc.
Qed.

(** What the concatenation stage shows of itself. *)
Lemma execute_shape (files : list string) (listPath out : string) (fs : FS) :
  let stage := execute files listPath out fs in
  (∀ p content, In (WriteFile p content) (events stage) →
     p = listPath ∧ content = concatListContent files ∧ files ≠ [])
  ∧ (∀ p, In (Probe p) (events stage) →
     p = out ∧ In (Log info ConcatenationCompleted) (events stage))
  ∧ (∀ msg, In (Log error (ErrorConcatenating msg)) (events stage) →
     outcome stage = Throw (mkError msg) ∧ ∀ p, ¬ In (Probe p) (events stage))
  ∧ (∀ r, outcome stage = Ok r →
     outputPath r = out ∧ audioLengthSeconds r ≠ JS.NaN
     ∧ In (Log info (FinalAudioDuration (audioLengthSeconds r))) (events stage))
  ∧ (∀ i p, events stage !! i = Some (Probe p) →
     ∃ j, (j < i)%nat ∧ events stage !! j = Some (Log info ConcatenationCompleted)).
Proof.
  cbv zeta. unfold execute. destruct files as [|file files].
  { cbn. repeat split; intros; done. }
  cbn [length Nat.eqb].
  unfold concatenate, getAudioDuration, writeFileSync, log, emit, throw, ret, bind,
    outcome, events.
  destruct (fs_write _ _ fs) as [fs1|e].
  2:{ cbn. split; [|split; [|split; [|split] ] ].
      - intros p content [ [= <- <-] | [] ]. done.
      - intros p [ [=] | [] ].
      - intros msg [ [=] | [] ].
      - intros r [=].
      - by intros [|i] p [=]. }
  destruct (ffmpeg_run (concat_command listPath out) fs1) as [ [msg|] fs2].
  { cbn. split; [|split; [|split; [|split] ] ].
    - intros p content Hin. in_cases Hin. by injection Hin as <- <-.
    - intros p Hin. in_cases Hin.
    - intros msg' Hin. in_cases Hin. injection Hin as <-.
      split; [done|]. intros p Hp. in_cases Hp.
    - intros r [=].
    - by intros [|[|[|[|[|i] ] ] ] ] p [=]. }
  assert (∀ (i : nat) (p : string) (tail : list Event),
            (WriteFile listPath (concatListContent (file :: files))
               :: Log info (CreatedConcatList (S (length files)))
               :: Log info (ConcatenatingTo out)
               :: Concat (concat_command listPath out)
               :: Log info ConcatenationCompleted
               :: Probe out :: tail) !! i = Some (Probe p) →
            ∃ j, (j < i)%nat
                 ∧ (WriteFile listPath (concatListContent (file :: files))
                      :: Log info (CreatedConcatList (S (length files)))
                      :: Log info (ConcatenatingTo out)
                      :: Concat (concat_command listPath out)
                      :: Log info ConcatenationCompleted
                      :: Probe out :: tail) !! j
                   = Some (Log info ConcatenationCompleted)) as Hafter.
  { intros [|[|[|[|[|i] ] ] ] ] p tail Hp; try discriminate Hp.
    exists 4%nat. split; [lia | done]. }
  destruct (ffprobe out fs2) as [duration|e].
  2:{ cbn. split; [|split; [|split; [|split] ] ].
      - intros p content Hin. in_cases Hin. by injection Hin as <- <-.
      - intros p Hin. in_cases Hin. injection Hin as <-. split; [done|]. tauto.
      - intros msg' Hin. in_cases Hin.
      - intros r [=].
      - intros i p. apply Hafter. }
  assert (∀ d : JS.number, JS.truthy_number d = true → d ≠ JS.NaN) as Hnumber.
  { by intros [ | | ]. }
  destruct duration as [ [d|text] | ];
    [destruct (JS.truthy_number d) eqn:Hd | destruct (JS.truthy text) | ];
    cbn; (split; [|split; [|split; [|split] ] ]);
    try (intros p content Hin; in_cases Hin; by injection Hin as <- <-);
    try (intros p Hin; in_cases Hin; injection Hin as <-; split; [done|]; tauto);
    try (intros msg' Hin; by in_cases Hin);
    try (intros i p; apply Hafter);
    try (by intros r [=]);
    intros r [= <-]; cbn; (split; [done|]); (split; [|tauto]);
    first [by apply Hnumber | done].
Qed.

(** No event of the loop or of the clean-up belongs to the concatenation
    stage. *)
Lemma loop_events_not_execute (tempDir : string) (i : nat)
    (steps : list AudioSequenceStep) (files : list string) (fs : FS) :
  Forall (λ e, is_execute_event e = false ∧ ∀ l m, e = Log l m → l = info ∨
            ∃ msg, m = ErrorGeneratingSilence msg)
    (events (plan_loop tempDir i steps files fs)).
Proof.
  apply Forall_forall. intros e He.
  assert (Forall (λ e, match e with
                       | Log l m => l = info ∨ ∃ msg, m = ErrorGeneratingSilence msg
                       | Which | Silence _ => True
                       | _ => False
                       end) (events (plan_loop tempDir i steps files fs))) as Hall.
  { clear e He. revert i files fs.
    induction steps as [|step steps IH]; intros i files fs; cbn [plan_loop].
    - constructor.
    - apply Forall_events_bind; [|intros; apply IH].
      unfold plan_step. destruct (JS.truthy_opt _).
      + destruct (audio_file_name_and_path step); [|constructor].
        apply Forall_events_bind; [|intros; constructor].
        apply Forall_cons. split; [by left | constructor].
      + destruct (pause_duration step) as [seconds|]; [|constructor].
        destruct (JS.gt_zero seconds); [|constructor].
        apply Forall_events_bind; [|intros; constructor].
        rewrite generateSilence_run. cbv zeta.
        destruct (execSync _ (execSync "which ffmpeg" _).2).1;
          [destruct (fs_exists _ _)|];
          unfold events; cbn [snd app];
          repeat (apply Forall_cons; split;
                  [first [by left | by right; eexists | done] |]);
          constructor. }
  rewrite Forall_forall in Hall. specialize (Hall e He).
  destruct e; try done. split; [done|]. intros l' m' [= <- <-]. exact Hall.
Qed.

Lemma cleanup_events_not_execute (tempDir : string) (fs : FS) :
  Forall (λ e, is_execute_event e = false ∧ ∀ l m, e = Log l m → l = info)
    (events (cleanup tempDir fs)).
Proof.
  rewrite cleanup_run. destruct (fs_exists fs tempDir); unfold events; cbn [snd];
    repeat constructor; by intros l m [= <- _].
Qed.

End Stages.

Section Runs.
Context `{Host}.

(** A run, cut into what comes before the loop, the loop, the
    concatenation stage (if the loop got through) and the clean-up. *)
Lemma combineAudioFiles_stages (steps : list AudioSequenceStep)
    (out projectResourcesPath : string) (fs : FS) :
  let tempDir := scratch_dir projectResourcesPath in
  let fs0 := if fs_exists fs tempDir then fs else fs_mkdir tempDir fs in
  let loop := plan_loop tempDir 0 steps [] fs0 in
  let run := combineAudioFiles steps out projectResourcesPath fs in
  let quiet := λ e, is_execute_event e = false ∧ ∀ l m, e = Log l m → l = info in
  ∃ before stage after,
    events run = before ++ events loop ++ stage ++ after
    ∧ Forall quiet before ∧ Forall quiet after
    ∧ match outcome loop with
      | Ok files =>
          stage = events (execute files (path_join tempDir "concat-list.txt") out (disk loop))
          ∧ outcome run
            = outcome (execute files (path_join tempDir "concat-list.txt") out (disk loop))
      | Throw e => stage = [] ∧ outcome run = Throw e
      end.
Proof.
  cbv zeta. rewrite outcome_combineAudioFiles, events_combineAudioFiles. cbv zeta.
  set (tempDir := scratch_dir projectResourcesPath).
  set (fs0 := if fs_exists fs tempDir then fs else fs_mkdir tempDir fs).
  rewrite (guarded_stages steps tempDir out fs0). cbv zeta.
  exists (Log info (StartingAudioProcessing (length steps))
            :: (if fs_exists fs tempDir then []
                else [Mkdir tempDir; Log info (CreatedTemporaryDirectory tempDir)])).
  destruct (outcome (plan_loop tempDir 0 steps [] fs0)) as [files|e].
  - eexists _, _. unfold events at 1, outcome at 1. cbn [fst snd].
    split; [reflexivity|].
    split; [|split; [apply cleanup_events_not_execute | done] ].
    constructor; [by split; [|intros l m [= <- _] ] |].
    destruct (fs_exists fs tempDir); repeat constructor; by intros l m [= <- _].
  - exists [], (events (cleanup tempDir (disk (plan_loop tempDir 0 steps [] fs0)))).
    unfold events at 1, outcome at 1. cbn [fst snd].
    split; [reflexivity|].
    split; [|split; [apply cleanup_events_not_execute | done] ].
    constructor; [by split; [|intros l m [= <- _] ] |].
    destruct (fs_exists fs tempDir); repeat constructor; by intros l m [= <- _].
Qed.

End Runs.

(** X5: when the loop gets through, the plan it returns is the list of
    segments of the steps in step order: the clip of a step that has one,
    the file silence-<index>.mp3 in the scratch directory for a step
    with only a positive pause, where the index is the step's position
    among all steps, and nothing for any other step. *)
Theorem loop_returns_planned_segments `{Host} (tempDir : string)
    (steps : list AudioSequenceStep) (plan : list string) (fs : FS) :
  outcome (plan_loop tempDir 0 steps [] fs) = Ok plan →
  plan = planned tempDir 0 steps ∧ (length plan ≤ length steps)%nat.
Proof.
  intros Hplan. apply plan_loop_Ok in Hplan as ->. split; [done|]. simpl.
  generalize 0%nat. induction steps as [|step steps IH]; intros i; [done|].
  cbn [planned length]. specialize (IH (S i)).
  destruct (segment_of tempDir i step); cbn [length]; lia.
Qed.

(** X6: whatever manifest a run writes, it writes it to concat-list.txt
    in the scratch directory, and its content lists the planned segments
    of the steps, which are then not empty. *)
Theorem manifest_is_the_plan `{Host} (steps : list AudioSequenceStep)
    (outputPath projectResourcesPath p content : string) (fs : FS) :
  In (WriteFile p content)
     (events (combineAudioFiles steps outputPath projectResourcesPath fs)) →
  let tempDir := scratch_dir projectResourcesPath in
  p = path_join tempDir "concat-list.txt"
  ∧ content = concatListContent (planned tempDir 0 steps)
  ∧ planned tempDir 0 steps ≠ [].
Proof.
  intros Hin tempDir.
  destruct (combineAudioFiles_stages steps outputPath projectResourcesPath fs)
    as (before & stage & after & Hevs & Hbefore & Hafter & Hstage).
  fold tempDir in Hstage.
  rewrite Hevs in Hin. rewrite !in_app_iff in Hin.
  destruct Hin as [Hin | [Hin | [Hin | Hin] ] ].
  - apply (proj1 (List.Forall_forall _ _) Hbefore) in Hin. by destruct Hin.
  - apply (proj1 (List.Forall_forall _ _) (loop_events_not_execute _ _ _ _ _)) in Hin.
    by destruct Hin.
  - destruct (outcome (plan_loop _ _ _ _ _)) as [files|e] eqn:Hplan.
    + destruct Hstage as [-> _]. apply plan_loop_Ok in Hplan as ->.
      by apply (execute_shape _ _ _ _) in Hin.
    + destruct Hstage as [-> _]. destruct Hin.
  - apply (proj1 (List.Forall_forall _ _) Hafter) in Hin. by destruct Hin.
Qed.

(** X7: a silence that cannot be generated ends the run: the steps after
    it are not looked at, the call throws the error of the generator, and
    no manifest is written, nothing is concatenated and nothing probed. *)
Theorem failed_silence_stops_run `{Host} (before after : list AudioSequenceStep)
    (outputPath projectResourcesPath : string) (fs : FS) (e : Error) :
  let tempDir := scratch_dir projectResourcesPath in
  let fs0 := if fs_exists fs tempDir then fs else fs_mkdir tempDir fs in
  outcome (plan_loop tempDir 0 before [] fs0) = Throw e →
  plan_loop tempDir 0 (before ++ after) [] fs0 = plan_loop tempDir 0 before [] fs0
  ∧ outcome (combineAudioFiles (before ++ after) outputPath projectResourcesPath fs)
    = Throw e
  ∧ Forall (λ ev, is_execute_event ev = false)
      (events (combineAudioFiles (before ++ after) outputPath projectResourcesPath fs)).
Proof.
  intros tempDir fs0 Hthrow.
  assert (plan_loop tempDir 0 (before ++ after) [] fs0
          = plan_loop tempDir 0 before [] fs0) as Hsame.
  { rewrite plan_loop_app. unfold bind. unfold outcome in Hthrow.
    by destruct (plan_loop tempDir 0 before [] fs0) as [ [ [files|e'] fs1] ev1]. }
  split; [done|].
  destruct (combineAudioFiles_stages (before ++ after) outputPath projectResourcesPath fs)
    as (pre & stage & post & Hevs & Hpre & Hpost & Hstage).
  fold tempDir fs0 in Hstage, Hevs. rewrite Hsame in Hstage, Hevs.
  rewrite Hthrow in Hstage. destruct Hstage as [-> ->]. split; [done|].
  rewrite Hevs, !Forall_app. repeat split.
  - eapply Forall_impl; [exact Hpre | by intros ? [? _] ].
  - eapply Forall_impl; [apply loop_events_not_execute | by intros ? [? _] ].
  - constructor.
  - eapply Forall_impl; [exact Hpost | by intros ? [? _] ].
Qed.

(** X8: a call that returns reports the output path it was given and a
    duration that is a number (zero when the probe has none to report),
    and has logged that duration. *)
Theorem result_of_a_run `{Host} (steps : list AudioSequenceStep)
    (out projectResourcesPath : string) (fs : FS) (r : ProcessingResult) :
  outcome (combineAudioFiles steps out projectResourcesPath fs) = Ok r →
  outputPath r = out
  ∧ audioLengthSeconds r ≠ JS.NaN
  ∧ In (Log info (FinalAudioDuration (audioLengthSeconds r)))
      (events (combineAudioFiles steps out projectResourcesPath fs)).
Proof.
  intros Hok.
  destruct (combineAudioFiles_stages steps out projectResourcesPath fs)
    as (before & stage & after & Hevs & _ & _ & Hstage).
  destruct (outcome (plan_loop _ _ _ _ _)) as [files|e].
  - destruct Hstage as [-> Hout]. rewrite Hout in Hok.
    apply (execute_shape _ _ _ _) in Hok as (Hpath & Hnum & Hlog).
    split; [done|]. split; [done|]. rewrite Hevs, !in_app_iff. auto.
  - destruct Hstage as [_ Hout]. congruence.
Qed.

(** An element that occurs only in the middle part of a list has before it
    whatever the middle part has before it. *)
Lemma earlier_in_middle {A : Type} (pre mid post before after : list A) (x c : A) :
  pre ++ mid ++ post = before ++ x :: after →
  ¬ In x pre → ¬ In x post →
  (∀ i, mid !! i = Some x → ∃ j, (j < i)%nat ∧ mid !! j = Some c) →
  In c before.
Proof.
  intros Heq Hpre Hpost Hmid.
  assert ((pre ++ mid ++ post) !! length before = Some x) as Hx.
  { rewrite Heq. by apply list_lookup_middle. }
  apply lookup_app_Some in Hx as [Hx | [Hle Hx] ].
  { apply list_elem_of_lookup_2, list_elem_of_In in Hx. by destruct Hpre. }
  apply lookup_app_Some in Hx as [Hx | [_ Hx] ].
  - destruct (Hmid _ Hx) as (j & Hj & Hc).
    assert ((before ++ x :: after) !! (length pre + j)%nat = Some c) as Hat.
    { rewrite <- Heq, lookup_app_r by lia.
      replace (length pre + j - length pre)%nat with j by lia.
      by apply lookup_app_l_Some. }
    rewrite lookup_app_l in Hat by lia.
    by apply list_elem_of_lookup_2, list_elem_of_In in Hat.
  - apply list_elem_of_lookup_2, list_elem_of_In in Hx. by destruct Hpost.
Qed.

(** X9: wherever a run probes a duration, it probes the output path, and
    the concatenation has been logged as completed earlier in the run;
    when the concatenation fails, the call throws the tool's message and
    probes nothing. *)
Theorem probe_follows_concatenation `{Host} (steps : list AudioSequenceStep)
    (out projectResourcesPath : string) (fs : FS) :
  let run := combineAudioFiles steps out projectResourcesPath fs in
  (∀ p before after, events run = before ++ Probe p :: after →
     p = out ∧ In (Log info ConcatenationCompleted) before)
  ∧ (∀ msg, In (Log error (ErrorConcatenating msg)) (events run) →
     outcome run = Throw (mkError msg) ∧ ∀ p, ¬ In (Probe p) (events run)).
Proof.
  cbv zeta.
  destruct (combineAudioFiles_stages steps out projectResourcesPath fs)
    as (pre & stage & post & Hevs & Hbefore & Hafter & Hstage).
  pose proof (loop_events_not_execute (scratch_dir projectResourcesPath) 0 steps []
                (if fs_exists fs (scratch_dir projectResourcesPath) then fs
                 else fs_mkdir (scratch_dir projectResourcesPath) fs)) as Hloop.
  pose proof (proj1 (List.Forall_forall _ _) Hbefore) as Hb.
  pose proof (proj1 (List.Forall_forall _ _) Hafter) as Ha.
  pose proof (proj1 (List.Forall_forall _ _) Hloop) as Hl.
  cbv beta in Hb, Ha, Hl.
  assert (∀ p, In (Probe p) (events (combineAudioFiles steps out projectResourcesPath fs)) →
               In (Probe p) stage) as Hprobe.
  { intros p. rewrite Hevs, !in_app_iff. intros [Hin | [Hin | [Hin | Hin] ] ]; [| |done|].
    - by destruct (Hb _ Hin).
    - by destruct (Hl _ Hin).
    - by destruct (Ha _ Hin). }
  split.
  - intros p before after Hsplit.
    assert (In (Probe p) stage) as Hin.
    { apply Hprobe. rewrite Hsplit, in_app_iff. right. by left. }
    rewrite Hevs, app_assoc in Hsplit.
    assert (¬ In (Probe p) (pre ++ events (plan_loop (scratch_dir projectResourcesPath) 0
                                             steps []
                                             (if fs_exists fs (scratch_dir projectResourcesPath)
                                              then fs
                                              else fs_mkdir (scratch_dir projectResourcesPath)
                                                     fs)))) as Hpre.
    { rewrite in_app_iff. intros [Hp | Hp]; [by destruct (Hb _ Hp) | by destruct (Hl _ Hp)]. }
    assert (¬ In (Probe p) post) as Hpost.
    { intros Hp. by destruct (Ha _ Hp). }
    destruct (outcome (plan_loop _ _ _ _ _)) as [files|e].
    + destruct Hstage as [-> _].
      pose proof (execute_shape files
                    (path_join (scratch_dir projectResourcesPath) "concat-list.txt") out
                    (disk (plan_loop (scratch_dir projectResourcesPath) 0 steps []
                             (if fs_exists fs (scratch_dir projectResourcesPath) then fs
                              else fs_mkdir (scratch_dir projectResourcesPath) fs))))
        as (_ & Hout & _ & _ & Hearlier).
      cbv zeta in Hout, Hearlier. destruct (Hout p Hin) as [-> _].
      split; [done|].
      eapply earlier_in_middle; [exact Hsplit | exact Hpre | exact Hpost |].
      intros i. apply Hearlier.
    + destruct Hstage as [-> _]. destruct Hin.
  - intros msg Hin.
    assert (In (Log error (ErrorConcatenating msg)) stage) as Hstg.
    { rewrite Hevs, !in_app_iff in Hin.
      destruct Hin as [Hin | [Hin | [Hin | Hin] ] ]; [| |done|].
      - destruct (Hb _ Hin) as [_ Hlog]. by specialize (Hlog _ _ eq_refl).
      - destruct (Hl _ Hin) as [_ Hlog].
        by destruct (Hlog _ _ eq_refl) as [? | [? ?] ].
      - destruct (Ha _ Hin) as [_ Hlog]. by specialize (Hlog _ _ eq_refl). }
    destruct (outcome (plan_loop _ _ _ _ _)) as [files|e].
    + destruct Hstage as [-> Hout].
      apply (execute_shape _ _ _ _) in Hstg as [Hthrow Hnone].
      split; [by rewrite Hout|]. intros p Hp%Hprobe. by apply (Hnone p).
    + destruct Hstage as [-> _]. destruct Hstg.
Qed.

(** The decimal rendering of an index has digits only. *)
Lemma pretty_N_go_digits (x : N) (s : string) :
  all_chars JS.is_digit s = true → all_chars JS.is_digit (pretty_N_go x s) = true.
Proof.
  revert s. induction (N.lt_wf_0 x) as [x _ IH]. intros s Hs.
  assert (x = 0 ∨ 0 < x)%N as [-> | Hpos] by lia.
  - by rewrite pretty_N_go_0.
  - rewrite pretty_N_go_step by done. apply IH; [by apply N.div_lt|].
    cbn [all_chars]. rewrite Hs, andb_true_r.
    unfold pretty_N_char. by repeat case_match.
Qed.

Lemma pretty_nat_digits (n : nat) : all_chars JS.is_digit (pretty n) = true.
Proof.
  unfold pretty, pretty_nat, pretty, pretty_N.
  destruct (decide (N.of_nat n = 0%N)); [done|]. by apply pretty_N_go_digits.
Qed.

Lemma silence_name_plain (i : nat) :
  plain_name ("silence-" +:+ pretty i +:+ ".mp3") = true.
Proof.
  unfold plain_name. rewrite !all_chars_app.
  assert (all_chars (λ c, negb (is_separator c)) (pretty i) = true) as ->.
  { pose proof (pretty_nat_digits i) as Hdigits.
    induction (pretty i) as [|c r IH]; [done|]. cbn [all_chars] in *.
    apply andb_true_iff in Hdigits as [Hc Hr]. rewrite (IH Hr), andb_true_r.
    apply is_digit_cases in Hc. simpl in Hc.
    repeat destruct Hc as [<- | Hc]; done. }
  by rewrite !append_cons.
Qed.

(** X10: two steps at different positions that each get a silence file
    get different files, provided that [path.join] keeps plain file names
    (one segment each) below the scratch directory apart. *)
Theorem silence_files_distinct `{Host} (tempDir : string) (i j : nat)
    (step1 step2 : AudioSequenceStep) :
  (∀ a b, plain_name a = true → plain_name b = true →
          path_join tempDir a = path_join tempDir b → a = b) →
  has_clip step1 = false → has_clip step2 = false →
  has_pause step1 = true →
  i ≠ j →
  segment_of tempDir i step1 ≠ segment_of tempDir j step2.
Proof.
  intros Hjoin Hclip1 Hclip2 Hpause Hne. unfold segment_of.
  rewrite Hclip1, Hclip2, Hpause.
  destruct (has_pause step2); [|done]. intros [= Heq]. apply Hne.
  apply Hjoin in Heq; [|apply silence_name_plain..].
  apply (inj (String.app "silence-")) in Heq.
  assert (∀ a b : string, a +:+ ".mp3" = b +:+ ".mp3" → a = b) as Hsuffix.
  { intros a. induction a as [|x a IH]; intros [|y b] Hab.
    - done.
    - exfalso. rewrite append_empty_l, append_cons in Hab.
      injection Hab as -> Hab. destruct b as [|? [|? [|? [|? b] ] ] ]; discriminate.
    - exfalso. rewrite append_empty_l, append_cons in Hab.
      injection Hab as -> Hab. destruct a as [|? [|? [|? [|? a] ] ] ]; discriminate.
    - rewrite !append_cons in Hab. injection Hab as -> Hab. f_equal. by apply IH. }
  apply Hsuffix in Heq. by apply (inj pretty).
Qed.

(** ** The validators *)

Lemma check_audio_files_none (fs : FS) (audioSteps : list AudioSequenceStep) :
  (check_audio_files fs audioSteps).1 = []
  ↔ ∀ step file, In step audioSteps → audio_file_name_and_path step = Some file →
      fs_exists fs file = true.
Proof.
  induction audioSteps as [|step rest IH]; cbn [check_audio_files].
  { split; [by intros _ ? ? [] | done]. }
  destruct (check_audio_files fs rest) as [missingFiles lines]. cbn [fst] in IH.
  destruct (audio_file_name_and_path step) as [filePath|] eqn:Hpath.
  - destruct (fs_exists fs filePath) eqn:Hfound; cbn [negb fst].
    + rewrite IH. split.
      * intros Hrest step' file [<- | Hin] Hfile; [congruence | by eapply Hrest].
      * intros Hall step' file Hin. apply Hall. by right.
    + split; [done|]. intros Hall.
      specialize (Hall step filePath (or_introl eq_refl) Hpath). congruence.
  - cbn [fst]. rewrite IH. split.
    + intros Hrest step' file [<- | Hin] Hfile; [congruence | by eapply Hrest].
    + intros Hall step' file Hin. apply Hall. by right.
Qed.

Lemma check_audio_files_reports (fs : FS) (audioSteps : list AudioSequenceStep)
    (step : AudioSequenceStep) (file : string) :
  In step audioSteps → audio_file_name_and_path step = Some file →
  fs_exists fs file = false →
  In file (check_audio_files fs audioSteps).1
  ∧ In (Logger error (Text ("Audio file not found for step " +:+ id step
                              +:+ ": " +:+ file)))
      (check_audio_files fs audioSteps).2.
Proof.
  intros Hin Hfile Hmissing. induction audioSteps as [|step' rest IH]; [done|].
  cbn [check_audio_files].
  destruct (check_audio_files fs rest) as [missingFiles lines]. cbn [fst snd] in IH.
  destruct Hin as [-> | Hin].
  - rewrite Hfile, Hmissing. cbn [negb fst snd]. split; by left.
  - destruct (IH Hin) as [Hm Hl].
    destruct (audio_file_name_and_path step') as [filePath|]; [|done].
    destruct (fs_exists fs filePath); cbn [negb fst snd]; [done|]. split; by right.
Qed.

Lemma has_audio_path_filter (steps : list AudioSequenceStep) (step : AudioSequenceStep)
    (file : string) :
  In step steps → audio_file_name_and_path step = Some file →
  In step (List.filter has_audio_path steps).
Proof.
  intros Hin Hfile. apply filter_In. split; [done|]. unfold has_audio_path.
  by rewrite Hfile.
Qed.

(** The files are valid exactly when every clip path names something. *)
Lemma validateAudioFiles_true (steps : list AudioSequenceStep) (fs : FS) :
  (validateAudioFiles steps fs).1 = true
  ↔ ∀ step file, In step steps → audio_file_name_and_path step = Some file →
      fs_exists fs file = true.
Proof.
  unfold validateAudioFiles.
  pose proof (check_audio_files_none fs (List.filter has_audio_path steps)) as Hnone.
  destruct (check_audio_files fs (List.filter has_audio_path steps))
    as [missingFiles lines].
  cbn [fst] in Hnone.
  assert (missingFiles = []
          ↔ ∀ step file, In step steps → audio_file_name_and_path step = Some file →
              fs_exists fs file = true) as Hiff.
  { rewrite Hnone. split.
    - intros Hall step file Hin Hfile. apply (Hall step); [|done].
      by eapply has_audio_path_filter.
    - intros Hall step file Hin. apply Hall. by apply filter_In in Hin as [? _]. }
  rewrite <- Hiff. destruct missingFiles; cbn [length Nat.ltb Nat.leb fst]; by split.
Qed.

(** X11: the audio files are valid exactly when every step that has a
    clip path, even an empty one, names something that exists; and every
    clip path that names nothing is reported with the id of its step. *)
Theorem validation_passes_iff_files_exist (steps : list AudioSequenceStep) (fs : FS) :
  ((validateAudioFiles steps fs).1 = true
   ↔ ∀ step file, In step steps → audio_file_name_and_path step = Some file →
       fs_exists fs file = true)
  ∧ ∀ step file, In step steps → audio_file_name_and_path step = Some file →
      fs_exists fs file = false →
      In (Logger error (Text ("Audio file not found for step " +:+ id step
                                +:+ ": " +:+ file)))
        (validateAudioFiles steps fs).2.
Proof.
  split; [apply validateAudioFiles_true|].
  intros step file Hin Hfile Hmissing. unfold validateAudioFiles.
  destruct (check_audio_files_reports fs (List.filter has_audio_path steps) step file
              (has_audio_path_filter _ _ _ Hin Hfile) Hfile Hmissing) as [_ Hline].
  destruct (check_audio_files fs (List.filter has_audio_path steps))
    as [missingFiles lines].
  cbn [snd] in Hline.
  destruct (0 <? length missingFiles)%nat; cbn [snd]; right; apply in_app_iff; by left.
Qed.

(** ** The FFmpeg binary *)

Lemma first_existing_Some (fs : FS) (paths : list string) (p : string) :
  first_existing fs paths = Some p → In p paths ∧ fs_exists fs p = true.
Proof.
  induction paths as [|q rest IH]; [done|]. cbn [first_existing].
  destruct (fs_exists fs q) eqn:Hq.
  - intros [= <-]. split; [by left | done].
  - intros Hrest. destruct (IH Hrest). split; [by right | done].
Qed.

Lemma first_existing_None (fs : FS) (paths : list string) :
  first_existing fs paths = None → Forall (λ p, fs_exists fs p = false) paths.
Proof.
  induction paths as [|q rest IH]; [constructor|]. cbn [first_existing].
  destruct (fs_exists fs q) eqn:Hq; [done|]. intros Hrest. constructor; auto.
Qed.

(** X12: when the lookup returns, the one binary it has set exists, and it
    is the answer of [which], trimmed, or one of the three common paths;
    the answer of [which] is taken whenever it names something that
    exists.  When it throws, no binary was set and none of the common
    paths exists. *)
Theorem ffmpeg_path_set_exists `{Host} (fs : FS) :
  let run := findAndSetFfmpegPath fs in
  let which := execSync "which ffmpeg" fs in
  (run.1.1 = Ok () →
   ∃ p, List.filter is_set_path run.2 = [SetFfmpegPath p]
        ∧ fs_exists run.1.2 p = true
        ∧ ((∃ stdout, which.1 = Ok stdout ∧ p = JS.trim stdout) ∨ In p commonPaths))
  ∧ (∀ stdout, which.1 = Ok stdout → JS.trim stdout ≠ "" →
     fs_exists which.2 (JS.trim stdout) = true →
     run.1.1 = Ok ()
     ∧ List.filter is_set_path run.2 = [SetFfmpegPath (JS.trim stdout)])
  ∧ (∀ e, run.1.1 = Throw e →
     e = mkError "FFmpeg not found"
     ∧ List.filter is_set_path run.2 = []
     ∧ Forall (λ p, fs_exists run.1.2 p = false) commonPaths).
Proof.
  cbv zeta. unfold findAndSetFfmpegPath.
  destruct (execSync "which ffmpeg" fs) as [found fs1]. cbn [fst snd].
  destruct found as [stdout|err].
  - destruct (JS.truthy (JS.trim stdout)) eqn:Htruthy;
      [destruct (fs_exists fs1 (JS.trim stdout)) eqn:Hfound|]; cbn [andb].
    + cbn [fst snd]. split; [|split].
      * intros _. exists (JS.trim stdout). split; [done|]. split; [done|].
        left. by exists stdout.
      * by intros ? [= <-] _ _.
      * by intros e [=].
    + destruct (first_existing fs1 commonPaths) as [p|] eqn:Hcommon; cbn [fst snd].
      * apply first_existing_Some in Hcommon as [Hin Hp].
        split; [|split]; [|intros ? [= <-] _ ?; congruence | by intros e [=] ].
        intros _. exists p. split; [done|]. split; [done|]. by right.
      * apply first_existing_None in Hcommon.
        split; [done|]. split; [intros ? [= <-] _ ?; congruence|].
        by intros e [= <-].
    + assert (JS.trim stdout = "") as Hempty.
      { unfold JS.truthy in Htruthy. by destruct (JS.trim stdout). }
      destruct (first_existing fs1 commonPaths) as [p|] eqn:Hcommon; cbn [fst snd].
      * apply first_existing_Some in Hcommon as [Hin Hp].
        split; [|split]; [|by intros ? [= <-] ? | by intros e [=] ].
        intros _. exists p. split; [done|]. split; [done|]. by right.
      * apply first_existing_None in Hcommon.
        split; [done|]. split; [by intros ? [= <-] ?|].
        by intros e [= <-].
  - destruct (first_existing fs1 commonPaths) as [p|] eqn:Hcommon; cbn [fst snd].
    + apply first_existing_Some in Hcommon as [Hin Hp].
      split; [|split]; [|done | by intros e [=] ].
      intros _. exists p. split; [done|]. split; [done|]. by right.
    + apply first_existing_None in Hcommon.
      split; [done|]. split; [done|]. by intros e [= <-].
Qed.

(** ** The entry point *)

Lemma parse_events_log `{Host} (csvPath : string) (fs : FS) :
  Forall (λ e, ∃ l m, e = Log l m) (events (parseAudioSequenceCSV csvPath fs)).
Proof.
  rewrite parseAudioSequenceCSV_cases.
  assert (∀ evs, Forall (λ e, ∃ l m, e = Log l m) evs →
            ∀ l1 m1 l2 m2,
              Forall (λ e, ∃ l m, e = Log l m) (Log l1 m1 :: evs ++ [Log l2 m2]))
    as Hframe.
  { intros evs Hevs l1 m1 l2 m2. apply Forall_cons. split; [by do 2 eexists|].
    apply Forall_app. split; [done|]. apply Forall_cons. split; [by do 2 eexists|].
    apply Forall_nil_2. }
  assert (∀ rows : list Row, Forall (λ e, ∃ l m, e = Log l m) (rows ≫= row_warnings))
    as Hrows.
  { intros rows. apply Forall_bind, Forall_forall. intros row _. unfold compose, row_warnings.
    destruct (row_pause_duration row) as [raw|]; [|apply Forall_nil_2].
    destruct (populated (Some raw) && JS.isNaN (JS.parseFloat raw));
      [|apply Forall_nil_2].
    apply Forall_cons. split; [by do 2 eexists | apply Forall_nil_2]. }
  destruct (fs_exists fs csvPath); cbv zeta.
  - destruct (csv_records csvPath fs).2; unfold events; cbn [snd]; apply Hframe, Hrows.
  - unfold events; cbn [snd]. apply (Hframe [] (Forall_nil_2 _)).
Qed.

Lemma parse_disk `{Host} (csvPath : string) (fs : FS) :
  disk (parseAudioSequenceCSV csvPath fs) = fs.
Proof.
  rewrite parseAudioSequenceCSV_cases.
  destruct (fs_exists fs csvPath); [|done]. cbv zeta.
  by destruct (csv_records csvPath fs).2.
Qed.

Lemma core_logs_no_work (evs : list Event) :
  Forall (λ e, ∃ l m, e = Log l m) evs → Forall (λ a, is_work a = false) (Core <$> evs).
Proof.
  intros Hlogs. apply Forall_fmap. eapply Forall_impl; [exact Hlogs|].
  by intros e (l & m & ->).
Qed.

Lemma validateAudioFiles_no_work (steps : list AudioSequenceStep) (fs : FS) :
  Forall (λ a, is_work a = false) (validateAudioFiles steps fs).2.
Proof.
  unfold validateAudioFiles.
  assert (∀ l, Forall (λ a, is_work a = false) (check_audio_files fs l).2) as Hcheck.
  { intros l. induction l as [|step rest IH]; [constructor|]. cbn [check_audio_files].
    destruct (check_audio_files fs rest) as [missingFiles lines]. cbn [snd] in IH.
    destruct (audio_file_name_and_path step) as [filePath|]; [|done].
    destruct (fs_exists fs filePath); cbn [negb snd]; [done|]. by constructor. }
  specialize (Hcheck (List.filter has_audio_path steps)).
  destruct (check_audio_files fs (List.filter has_audio_path steps))
    as [missingFiles lines].
  cbn [snd] in Hcheck.
  destruct (0 <? length missingFiles)%nat; cbn [snd];
    (constructor; [done|]); apply Forall_app; (split; [done|]); by repeat constructor.
Qed.

Section MainProperties.
Context `{Host} `{Access}.

Lemma validateOutputDirectory_true (outputDir : string) (fs : FS) :
  (validateOutputDirectory outputDir fs).1 = true
  ↔ fs_exists fs outputDir = true ∧ is_dir fs outputDir = true
    ∧ writable outputDir fs = true.
Proof.
  unfold validateOutputDirectory.
  destruct (fs_exists fs outputDir), (is_dir fs outputDir), (writable outputDir fs);
    cbn [negb fst]; intuition congruence.
Qed.

Lemma validateOutputDirectory_no_work (outputDir : string) (fs : FS) :
  Forall (λ a, is_work a = false) (validateOutputDirectory outputDir fs).2.
Proof.
  unfold validateOutputDirectory.
  destruct (fs_exists fs outputDir), (is_dir fs outputDir), (writable outputDir fs);
    cbn [negb snd]; by repeat constructor.
Qed.

(** The steps of [main] in terms of what each stage returns; the reader
    leaves the disk as it is, so every stage sees the disk [main] started
    with. *)
Lemma main_steps_cases (csv out resources : string) (now : Clock) (fs : FS) :
  let outputFilePath := path_join out (outputFileName now) in
  let opening :=
    [Logger info (Text ("CSV file: " +:+ csv));
     Logger info (Text ("Output directory: " +:+ out));
     Logger info (Text ("Generated output filename: " +:+ outputFileName now));
     Logger info (Text ("Full output path: " +:+ outputFilePath))] in
  let read := parseAudioSequenceCSV csv fs in
  main_steps csv out resources now fs
  = match outcome read with
    | Throw e =>
        (1%nat, fs,
         opening ++ (Core <$> events read)
           ++ fail_with "ERROR: " ("Failed to parse CSV file: " +:+ error_message e))
    | Ok audioSequence =>
        let dir := validateOutputDirectory out fs in
        let files := validateAudioFiles audioSequence fs in
        let work := combineAudioFiles audioSequence outputFilePath resources fs in
        if negb dir.1 then
          (1%nat, fs,
           opening ++ (Core <$> events read) ++ dir.2
             ++ fail_with "ERROR: " "Output directory validation failed")
        else if negb files.1 then
          (1%nat, fs,
           opening ++ (Core <$> events read) ++ dir.2 ++ files.2
             ++ fail_with "ERROR: "
                  "Audio file validation failed - one or more files not found")
        else
          let before :=
            opening ++ (Core <$> events read) ++ dir.2 ++ files.2
              ++ [Logger info (Text "All validations passed - starting audio processing")] in
          match outcome work with
          | Ok result =>
              (0%nat, disk work,
               before ++ (Core <$> events work)
                 ++ [Logger info (Text "=== Processing Complete ===");
                     Logger info (Text ("Output file: " +:+ outputPath result));
                     Logger info (AudioLength (audioLengthSeconds result));
                     Console false (Text (newline +:+ "=== Success ==="));
                     Console false (Text ("Output file: " +:+ outputPath result));
                     Console false (AudioLength (audioLengthSeconds result))])
          | Throw e =>
              (1%nat, disk work,
               before ++ (Core <$> events work)
                 ++ [Logger error (Text ("Unexpected error: " +:+ error_message e));
                     Logger error (StackOf e);
                     Console true
                       (Text ("FATAL ERROR: " +:+ "Unexpected error: "
                                +:+ error_message e))])
          end
    end.
Proof.
  cbv zeta. unfold main_steps. pose proof (parse_disk csv fs) as Hdisk.
  destruct (parseAudioSequenceCSV csv fs) as [ [parsed fs1] read].
  unfold outcome, disk, events in *. cbn [fst snd] in *. subst fs1.
  destruct parsed as [audioSequence|e]; [|done].
  destruct (validateOutputDirectory out fs) as [dir_ok dir_lines]. cbn [fst snd].
  destruct dir_ok; cbn [negb]; [|done].
  destruct (validateAudioFiles audioSequence fs) as [files_ok file_lines]. cbn [fst snd].
  destruct files_ok; cbn [negb]; [|done].
  destruct (combineAudioFiles audioSequence _ resources fs) as [ [processed fs2] work].
  cbn [fst snd]. by destruct processed.
Qed.


Lemma combineAudioFiles_no_scratch (steps : list AudioSequenceStep)
    (out projectResourcesPath : string) (fs : FS) :
  fs_exists (disk (combineAudioFiles steps out projectResourcesPath fs))
    (scratch_dir projectResourcesPath) = false.
Proof.
  rewrite combineAudioFiles_run. apply cleanup_removes, in_tree_spec. by left.
Qed.

(** The three variables, by cases. *)
Lemma main_cases (env : Env) (now : Clock) (fs : FS) :
  (∃ name,
     main env now fs
     = (1%nat, fs,
        [Logger info (Text "=== Morning Meditation Mantra 01 - Starting ===")]
          ++ fail_with "FATAL ERROR: " (name +:+ " environment variable is not set"))
     ∧ (required (PATH_AND_FILENAME_AUDIO_CSV_FILE env) = None
        ∨ required (PATH_MP3_OUTPUT env) = None
        ∨ required (PATH_PROJECT_RESOURCES env) = None))
  ∨ ∃ csv out resources,
      required (PATH_AND_FILENAME_AUDIO_CSV_FILE env) = Some csv
      ∧ required (PATH_MP3_OUTPUT env) = Some out
      ∧ required (PATH_PROJECT_RESOURCES env) = Some resources
      ∧ main env now fs
        = ((main_steps csv out resources now fs).1.1,
           (main_steps csv out resources now fs).1.2,
           [Logger info (Text "=== Morning Meditation Mantra 01 - Starting ===")]
             ++ (main_steps csv out resources now fs).2).
Proof.
  unfold main.
  destruct (required (PATH_AND_FILENAME_AUDIO_CSV_FILE env)) as [csv|];
    [|left; eexists; eauto].
  destruct (required (PATH_MP3_OUTPUT env)) as [out|]; [|left; eexists; eauto].
  destruct (required (PATH_PROJECT_RESOURCES env)) as [resources|];
    [|left; eexists; eauto].
  right. exists csv, out, resources. repeat split.
  by destruct (main_steps csv out resources now fs) as [ [code fs'] actions].
Qed.





Ltac no_work :=
  repeat lazymatch goal with
    | |- Forall _ (_ ++ _) => apply Forall_app; split
    | |- Forall _ (_ :: _) => apply Forall_cons; split; [reflexivity|]
    | |- Forall _ [] => apply Forall_nil_2
    | |- Forall _ (validateOutputDirectory _ _).2 => apply validateOutputDirectory_no_work
    | |- Forall _ (validateAudioFiles _ _).2 => apply validateAudioFiles_no_work
    | |- Forall _ (Core <$> _) => apply core_logs_no_work, parse_events_log
    end.

(** X13: [main] exits with code 0 or 1, and with 0 exactly when the three
    variables are set, the CSV file is read, both validations pass on the
    disk as it was at the start, and the processor returns, called with
    the steps read and the time-stamped path in the output directory. *)
Theorem main_exit_code (env : Env) (now : Clock) (fs : FS) :
  ((main env now fs).1.1 = 0%nat ∨ (main env now fs).1.1 = 1%nat)
  ∧ ((main env now fs).1.1 = 0%nat
     ↔ ∃ csv out resources steps r,
         required (PATH_AND_FILENAME_AUDIO_CSV_FILE env) = Some csv
         ∧ required (PATH_MP3_OUTPUT env) = Some out
         ∧ required (PATH_PROJECT_RESOURCES env) = Some resources
         ∧ outcome (parseAudioSequenceCSV csv fs) = Ok steps
         ∧ (validateOutputDirectory out fs).1 = true
         ∧ (validateAudioFiles steps fs).1 = true
         ∧ outcome (combineAudioFiles steps (path_join out (outputFileName now))
                      resources fs) = Ok r).
Proof.
  destruct (main_cases env now fs)
    as [ (name & -> & Hunset) | (csv & out & resources & Hcsv & Hout & Hres & ->) ].
  { cbn [fst snd]. split; [by right|]. split; [done|].
    intros (? & ? & ? & ? & ? & ? & ? & ? & _).
    destruct Hunset as [? | [? | ?] ]; congruence. }
  cbn [fst snd]. rewrite main_steps_cases. cbv zeta.
  assert (∀ P : Prop, ¬ P → (1%nat = 0%nat ∨ 1%nat = 1%nat) ∧ (1%nat = 0%nat ↔ P))
    as Hfail.
  { intros P HP. split; [by right|]. by split. }
  destruct (outcome (parseAudioSequenceCSV csv fs)) as [steps|e] eqn:Hparse;
    cbn [fst snd].
  2: { apply Hfail. intros (? & ? & ? & ? & ? & ? & ? & ? & ? & _). congruence. }
  destruct (validateOutputDirectory out fs).1 eqn:Hdir; cbn [negb fst snd].
  2: { apply Hfail. intros (? & ? & ? & ? & ? & ? & ? & ? & ? & ? & _). congruence. }
  destruct (validateAudioFiles steps fs).1 eqn:Hfiles; cbn [negb fst snd].
  2: { apply Hfail. intros (? & ? & ? & ? & ? & ? & ? & ? & ? & ? & ? & _). congruence. }
  destruct (outcome (combineAudioFiles steps _ resources fs)) as [r|e] eqn:Hwork;
    cbn [fst snd].
  - split; [by left|]. split; [|done]. intros _. by exists csv, out, resources, steps, r.
  - apply Hfail. intros (? & ? & ? & ? & ? & ? & ? & ? & ? & ? & ? & ?). congruence.
Qed.

(** X14: either [main] stops with code 1, the disk as it found it and only
    lines logged and printed, or the output directory and every clip path
    of the steps read exist on the disk at the start; the processor has
    then run, and no scratch directory is left. *)
Theorem main_stops_or_validated (env : Env) (now : Clock) (fs : FS) :
  ((main env now fs).1.1 = 1%nat
   ∧ (main env now fs).1.2 = fs
   ∧ Forall (λ a, is_work a = false) (main env now fs).2)
  ∨ ∃ csv out resources steps,
      required (PATH_AND_FILENAME_AUDIO_CSV_FILE env) = Some csv
      ∧ required (PATH_MP3_OUTPUT env) = Some out
      ∧ required (PATH_PROJECT_RESOURCES env) = Some resources
      ∧ outcome (parseAudioSequenceCSV csv fs) = Ok steps
      ∧ fs_exists fs out = true ∧ is_dir fs out = true ∧ writable out fs = true
      ∧ (∀ step file, In step steps → audio_file_name_and_path step = Some file →
           fs_exists fs file = true)
      ∧ (main env now fs).1.2
        = disk (combineAudioFiles steps (path_join out (outputFileName now))
                  resources fs)
      ∧ fs_exists (main env now fs).1.2 (scratch_dir resources) = false.
Proof.
  destruct (main_cases env now fs)
    as [ (name & -> & Hunset) | (csv & out & resources & Hcsv & Hout & Hres & ->) ].
  { left. cbn [fst snd]. split; [done|]. split; [done|]. unfold fail_with; no_work. }
  cbn [fst snd]. rewrite main_steps_cases. cbv zeta.
  destruct (outcome (parseAudioSequenceCSV csv fs)) as [steps|e] eqn:Hparse;
    cbn [fst snd].
  2: { left. split; [done|]. split; [done|]. unfold fail_with; no_work. }
  destruct (validateOutputDirectory out fs).1 eqn:Hdir; cbn [negb fst snd].
  2: { left. split; [done|]. split; [done|]. unfold fail_with; no_work. }
  destruct (validateAudioFiles steps fs).1 eqn:Hfiles; cbn [negb fst snd].
  2: { left. split; [done|]. split; [done|]. unfold fail_with; no_work. }
  right. exists csv, out, resources, steps.
  apply validateOutputDirectory_true in Hdir as (? & ? & ?).
  pose proof (proj1 (validateAudioFiles_true _ _) Hfiles) as Hall.
  do 8 (split; [done|]).
  destruct (outcome (combineAudioFiles steps _ resources fs)); cbn [fst snd];
    (split; [done|]); apply combineAudioFiles_no_scratch.
Qed.


End MainProperties.



(** ** The name of the output file *)

Lemma append_length (a b : string) :
  String.length (a +:+ b) = (String.length a + String.length b)%nat.
Proof. induction a as [|c a IH]; [done|]. rewrite append_cons. simpl. by rewrite IH. Qed.

Lemma append_inj_length (a a' b b' : string) :
  String.length a = String.length a' → a +:+ b = a' +:+ b' → a = a' ∧ b = b'.
Proof.
  revert a'. induction a as [|c a IH]; intros [|c' a'] Hlen Heq; try discriminate.
  - by rewrite !append_empty_l in Heq.
  - rewrite !append_cons in Heq. injection Heq as -> Heq. injection Hlen as Hlen.
    destruct (IH a' Hlen Heq) as [-> ->]. done.
Qed.

(** Two digits for every number below a hundred, and different digits for
    different numbers. *)
Lemma two_digits (n : nat) :
  (n < 100)%nat → String.length (padStart 2 "0" (pretty n)) = 2%nat.
Proof.
  intros Hn.
  assert (forallb (λ k, String.length (padStart 2 "0" (pretty k)) =? 2)%nat (seq 0 100)
          = true) as Hall by (vm_compute; reflexivity).
  rewrite forallb_forall in Hall. apply Nat.eqb_eq, Hall, in_seq. lia.
Qed.

Lemma two_digits_inj (n m : nat) :
  (n < 100)%nat → (m < 100)%nat →
  padStart 2 "0" (pretty n) = padStart 2 "0" (pretty m) → n = m.
Proof.
  intros Hn Hm Heq.
  assert (forallb (λ k,
            forallb (λ l,
              implb (String.eqb (padStart 2 "0" (pretty k)) (padStart 2 "0" (pretty l)))
                    (k =? l)%nat) (seq 0 100)) (seq 0 100) = true) as Hall
    by (vm_compute; reflexivity).
  rewrite forallb_forall in Hall.
  assert (In n (seq 0 100)) as Hin by (apply in_seq; lia).
  specialize (Hall n Hin). rewrite forallb_forall in Hall.
  assert (In m (seq 0 100)) as Him by (apply in_seq; lia).
  specialize (Hall m Him). apply (proj2 (String.eqb_eq _ _)) in Heq.
  rewrite Heq in Hall. by apply Nat.eqb_eq.
Qed.

(** X16: two runs that start at different seconds write to different
    files: the time stamp determines the year, month, day, hour, minute
    and second it was made from. *)
Theorem output_names_differ (now1 now2 : Clock) :
  valid_clock now1 → valid_clock now2 →
  now1 ≠ now2 →
  outputFileName now1 ≠ outputFileName now2.
Proof.
  intros (Hmo1 & Hd1 & Hh1 & Hmi1 & Hs1) (Hmo2 & Hd2 & Hh2 & Hmi2 & Hs2) Hne Heq.
  apply Hne. clear Hne. unfold outputFileName, timestamp in Heq.
  apply (inj (String.app "output_")) in Heq.
  rewrite !append_assoc in Heq.
  pose proof (f_equal String.length Heq) as Hlen.
  rewrite !append_length in Hlen.
  rewrite !two_digits in Hlen by lia.
  apply append_inj_length in Heq as [Hyear Heq]; [|lia].
  apply append_inj_length in Heq as [Hmonth Heq]; [|by rewrite !two_digits by lia].
  apply append_inj_length in Heq as [Hday Heq]; [|by rewrite !two_digits by lia].
  apply append_inj_length in Heq as [_ Heq]; [|done].
  apply append_inj_length in Heq as [Hhours Heq]; [|by rewrite !two_digits by lia].
  apply append_inj_length in Heq as [Hminutes Heq]; [|by rewrite !two_digits by lia].
  apply append_inj_length in Heq as [Hseconds _]; [|by rewrite !two_digits by lia].
  apply (inj pretty) in Hyear.
  apply two_digits_inj in Hmonth, Hday, Hhours, Hminutes, Hseconds; try lia.
  destruct now1, now2. simpl in *. f_equal; lia.
Qed.

(** Without the padding the eleventh of January and the first of November
    would both read 2026111. *)
Lemma output_names_differ_witness :
  outputFileName january_11 ≠ outputFileName november_1.
Proof.
  apply (output_names_differ january_11 november_1).
  - unfold valid_clock. simpl. lia.
  - unfold valid_clock. simpl. lia.
  - discriminate.
Defined.

(** ** The further properties on concrete runs *)

(** The three rows of the sample file give three steps with their ids. *)
Lemma parse_returns_clean_steps_witness :
  ∃ steps,
    outcome (parseAudioSequenceCSV (H := csv_host sample_rows) "seq.csv"
               {[ "seq.csv" := File "" ]}) = Ok steps
    ∧ id <$> steps = ["1"; "2"; "3"]
    ∧ Forall clean_step steps
    ∧ Forall (λ e, ∃ m, e = Log info m ∨ e = Log warn m)
        (events (parseAudioSequenceCSV (H := csv_host sample_rows) "seq.csv"
                   {[ "seq.csv" := File "" ]})).
Proof.
  apply (parse_returns_clean_steps (H := csv_host sample_rows) "seq.csv" sample_rows
           {[ "seq.csv" := File "" ]}); reflexivity.
Defined.

(** Scenario A: the pause is the second step, so its file is silence-1. *)
Lemma loop_returns_planned_segments_witness :
  ["a.mp3"; "/res/temporary_deletable/silence-1.mp3"; "b.mp3"]
  = planned (H := demo_host) "/res/temporary_deletable" 0 scenario_A
  ∧ (length ["a.mp3"; "/res/temporary_deletable/silence-1.mp3"; "b.mp3"]
     ≤ length scenario_A)%nat.
Proof.
  apply (loop_returns_planned_segments (H := demo_host) "/res/temporary_deletable"
           scenario_A ["a.mp3"; "/res/temporary_deletable/silence-1.mp3"; "b.mp3"]
           (fs_mkdir "/res/temporary_deletable" ∅)).
  vm_compute. reflexivity.
Defined.

(** Scenario A: the manifest lists the two clips with the silence file
    between them. *)
Lemma manifest_is_the_plan_witness :
  "/res/temporary_deletable/concat-list.txt"
  = path_join (Host := demo_host) (scratch_dir (H := demo_host) "/res") "concat-list.txt"
  ∧ concatListContent ["a.mp3"; "/res/temporary_deletable/silence-1.mp3"; "b.mp3"]
    = concatListContent
        (planned (H := demo_host) (scratch_dir (H := demo_host) "/res") 0 scenario_A)
  ∧ planned (H := demo_host) (scratch_dir (H := demo_host) "/res") 0 scenario_A ≠ [].
Proof.
  apply (manifest_is_the_plan (H := demo_host) scenario_A "/out/o.mp3" "/res"
           "/res/temporary_deletable/concat-list.txt"
           (concatListContent
              ["a.mp3"; "/res/temporary_deletable/silence-1.mp3"; "b.mp3"]) ∅).
  vm_compute. do 9 right. left. reflexivity.
Defined.

(** Scenario A with tools that fail: the pause stops the run, the second
    clip is never looked at. *)
Lemma failed_silence_stops_run_witness :
  plan_loop (H := failing_host) (scratch_dir (H := failing_host) "/res") 0
    ([clip "1" "a.mp3"; pause "2" 2] ++ [clip "3" "b.mp3"]) []
    (fs_mkdir (scratch_dir (H := failing_host) "/res") ∅)
  = plan_loop (H := failing_host) (scratch_dir (H := failing_host) "/res") 0
      [clip "1" "a.mp3"; pause "2" 2] []
      (fs_mkdir (scratch_dir (H := failing_host) "/res") ∅)
  ∧ outcome (combineAudioFiles (H := failing_host)
               ([clip "1" "a.mp3"; pause "2" 2] ++ [clip "3" "b.mp3"])
               "/out/o.mp3" "/res" ∅)
    = Throw (mkError "spawn failed")
  ∧ Forall (λ ev, is_execute_event ev = false)
      (events (combineAudioFiles (H := failing_host)
                 ([clip "1" "a.mp3"; pause "2" 2] ++ [clip "3" "b.mp3"])
                 "/out/o.mp3" "/res" ∅)).
Proof.
  change (fs_mkdir (scratch_dir (H := failing_host) "/res") ∅)
    with (if fs_exists ∅ (scratch_dir (H := failing_host) "/res") then ∅
          else fs_mkdir (scratch_dir (H := failing_host) "/res") ∅).
  apply (failed_silence_stops_run (H := failing_host) [clip "1" "a.mp3"; pause "2" 2]
           [clip "3" "b.mp3"] "/out/o.mp3" "/res" ∅ (mkError "spawn failed")).
  vm_compute. reflexivity.
Defined.

(** Scenario A: the result names the output path asked for and the ten
    seconds the probe reports. *)
Lemma result_of_a_run_witness :
  outputPath {| outputPath := "/out/o.mp3"; audioLengthSeconds := JS.Fin 10 |}
  = "/out/o.mp3"
  ∧ JS.Fin 10 ≠ JS.NaN
  ∧ In (Log info (FinalAudioDuration (JS.Fin 10)))
      (events (combineAudioFiles (H := demo_host) scenario_A "/out/o.mp3" "/res" ∅)).
Proof.
  apply (result_of_a_run (H := demo_host) scenario_A "/out/o.mp3" "/res" ∅
           {| outputPath := "/out/o.mp3"; audioLengthSeconds := JS.Fin 10 |}).
  vm_compute. reflexivity.
Defined.

(** Two pauses at positions 1 and 3. *)
Lemma silence_files_distinct_witness :
  segment_of (H := demo_host) "/res/temporary_deletable" 1 (pause "2" 2)
  ≠ segment_of (H := demo_host) "/res/temporary_deletable" 3 (pause "4" 2).
Proof.
  apply (silence_files_distinct (H := demo_host) "/res/temporary_deletable" 1 3
           (pause "2" 2) (pause "4" 2)).
  - intros a b _ _ Heq. simpl in Heq.
    apply (inj (String.app "/res/temporary_deletable")) in Heq.
    by apply (inj (String.app "/")) in Heq.
  - reflexivity.
  - reflexivity.
  - reflexivity.
  - lia.
Defined.

(** ** The entry point on concrete runs *)

(** Scenario A from the command line: the run exits with code 0, the
    output file is in the output directory under its time-stamped name,
    and the scratch directory is gone. *)
Example main_scenario_A :
  let run := main (H := csv_host scenario_A_rows) (H0 := open_access)
               demo_env noon demo_disk in
  run.1.1 = 0%nat
  ∧ fs_exists run.1.2 "/out/output_20260105_120309.mp3" = true
  ∧ fs_exists run.1.2 "/res/temporary_deletable" = false
  ∧ last run.2 = Some (Console false (AudioLength (JS.Fin 10))).
Proof. vm_compute. repeat split. Qed.

(** The same run when the second clip is missing: code 1, the disk
    untouched, the missing file named. *)
Example main_missing_clip :
  let run := main (H := csv_host scenario_A_rows) (H0 := open_access)
               demo_env noon (delete "b.mp3" demo_disk) in
  run.1.1 = 1%nat
  ∧ run.1.2 = delete "b.mp3" demo_disk
  ∧ In (Logger error (Text "Audio file not found for step 3: b.mp3")) run.2
  ∧ last run.2
    = Some (Console true
              (Text "ERROR: Audio file validation failed - one or more files not found")).
Proof.
  cbv zeta. split; [by vm_compute|]. split; [by vm_compute|]. split; [|by vm_compute].
  vm_compute. repeat (first [left; reflexivity | right]).
Qed.

(** The CSV path names a directory: the file stream fails, the process
    ends with the runtime's report of the uncaught error and code 1, the
    disk as it was, and nothing logged at error level. *)
Example run_main_csv_is_directory :
  let env := {| PATH_AND_FILENAME_AUDIO_CSV_FILE := Some "/out";
                PATH_MP3_OUTPUT := Some "/out";
                PATH_PROJECT_RESOURCES := Some "/res" |} in
  let run := run_main (H := csv_host scenario_A_rows) (H0 := open_access)
               (H1 := directory_fault) env noon demo_disk in
  run.1.1 = 1%nat
  ∧ run.1.2 = demo_disk
  ∧ last run.2
    = Some (Uncaught (mkError "EISDIR: illegal operation on a directory, read"))
  ∧ forallb (λ a, negb (is_error_log a)) run.2 = true.
Proof. cbv zeta. repeat split; by vm_compute. Qed.

(** With a CSV file that can be read the process is [main]. *)
Example run_main_scenario_A :
  run_main (H := csv_host scenario_A_rows) (H0 := open_access) (H1 := directory_fault)
    demo_env noon demo_disk
  = main (H := csv_host scenario_A_rows) (H0 := open_access) demo_env noon demo_disk.
Proof. by vm_compute. Qed.

(** [which] answers /usr/bin/ffmpeg; it is taken when it exists and the
    lookup fails on an empty disk. *)
Example ffmpeg_lookup :
  (findAndSetFfmpegPath (H := demo_host) (<["/usr/bin/ffmpeg" := File "elf"]>
                                            (fs_mkdir "/usr/bin" ∅))).2
  = [Core Which; SetFfmpegPath "/usr/bin/ffmpeg";
     Logger info (Text "Using FFmpeg at: /usr/bin/ffmpeg")]
  ∧ (findAndSetFfmpegPath (H := demo_host) ∅).1.1 = Throw (mkError "FFmpeg not found").
Proof. by vm_compute. Qed.
